(** * evm-exec: a shallow embedding of [src/main.cpp]

    The interpreter keeps one [ExecutionContext] (program counter, bytecode,
    operand stack, memory) and rewrites it one opcode at a time.  Every
    handler of the source is a function from a context to an [outcome]:
    the handlers receive the interpreter's own context by reference, so what
    they had already written when they throw is still there afterwards, and
    the outcome of a throw carries that context.

    Conventions:
    - [word_t] ([intx::uint256]) is a [Z] in [0, 2^256); the wrap-around of
      every operation is written out;
    - [std::size_t] is 64 bits wide; conversions wrap modulo [2^64];
    - [std::byte] and [std::uint8_t] are [Byte.byte];
    - the [std::stack] is a list whose head is the top of the stack;
    - reading or writing outside a container without a checked accessor, and
      [top]/[pop] on an empty stack, have no defined result: [Undefined];
    - [PrintStack] only writes the stack to standard output and
      [LoadBytecode] only fills the bytecode from a file: neither is part of
      the transition relation, and a loaded interpreter is [loaded bc]. *)

From Stdlib Require Import String Ascii ZArith List Lia Bool.
From coqutil Require Import Byte Word.LittleEndianList.
Import ListNotations.
Local Open Scope Z_scope.

(** ** Constants *)

Definition kHexBase : Z := 16.
Definition kWordSize : Z := 32.
Definition kByteSize : Z := 8.
Definition kMaxStackWordsSize : Z := 1024.
Definition kMaxStackSize : Z := kMaxStackWordsSize * 8.
Definition kMemorySize : Z := 100000.

Definition opcode_t : Type := byte.
Definition word_t : Type := Z.

Definition kShl : opcode_t := Byte.x1b.
Definition kMLoad : opcode_t := Byte.x51.
Definition kMStore : opcode_t := Byte.x52.
Definition kJump : opcode_t := Byte.x56.
Definition kJumpDest : opcode_t := Byte.x5b.
Definition kPush0 : opcode_t := Byte.x5f.
Definition kPush1 : opcode_t := Byte.x60.
Definition kPush2 : opcode_t := Byte.x61.
Definition kPush12 : opcode_t := Byte.x6b.
Definition kDup2 : opcode_t := Byte.x81.
Definition kDup3 : opcode_t := Byte.x82.
Definition kSwap1 : opcode_t := Byte.x90.

Inductive RevertError : Type :=
| kStackOverflow
| kGasExceeded
| kStackUnderflow
| kMemoryUnalignedAccess
| kInvalidJump.

Record OpcodeInfo : Type := mkOpcodeInfo {
  advance_by : Z;
  gas_consumed : Z
}.

(** [std::unordered_map::at]: the first (and, keys being distinct, only)
    entry with the key; [None] stands for the [std::out_of_range] it throws. *)
Fixpoint map_at {V : Type} (m : list (opcode_t * V)) (k : opcode_t) : option V :=
  match m with
  | [] => None
  | (k', v) :: rest => if Byte.eqb k' k then Some v else map_at rest k
  end.

Definition kOpcodeInfo : list (opcode_t * OpcodeInfo) :=
  [ (kMLoad, mkOpcodeInfo 0 0); (kJump, mkOpcodeInfo 0 0); (kDup3, mkOpcodeInfo 0 0);
    (kPush2, mkOpcodeInfo 2 0); (kPush0, mkOpcodeInfo 0 0); (kPush12, mkOpcodeInfo 12 0);
    (kPush1, mkOpcodeInfo 1 0); (kMStore, mkOpcodeInfo 0 0);
    (kSwap1, mkOpcodeInfo 0 0); (kDup2, mkOpcodeInfo 0 0); (kShl, mkOpcodeInfo 0 0) ].

(** ** The 256-bit word of the intx library

    [intx::uint256] is four 64-bit words, least significant first.  The
    operations below are the ones the source calls, with the library's
    documented results. *)
Module intx.

Definition num_bits : Z := 256.
Definition num_words : Z := 4.

Definition wrap (z : Z) : Z := z mod 2 ^ num_bits.

(** [uint256{n}] from a narrower unsigned integer. *)
Definition of_byte (b : byte) : word_t := byte.unsigned b.

(** [x << shift] with a [uint64_t] shift: zero from 256 on, otherwise the
    low 256 bits of the shifted value. *)
Definition shl64 (x : word_t) (shift : Z) : word_t :=
  if num_bits <=? shift then 0 else wrap (Z.shiftl x shift).

(** [x << shift] with a [uint256] shift: zero as soon as one of the three
    high words of the shift is set, otherwise [shl64] by its low word. *)
Definition shl (x shift : word_t) : word_t :=
  let high_words_fold := Z.shiftr shift 64 in
  if negb (high_words_fold =? 0) then 0
  else shl64 x (Z.land shift (Z.ones 64)).

Definition or (x y : word_t) : word_t := Z.lor x y.

(** [static_cast<std::size_t>(x)]: the least significant 64-bit word. *)
Definition to_size_t (x : word_t) : Z := x mod 2 ^ 64.

(** [as_bytes(x)] read over [kWordSize] bytes: the object representation
    on a little-endian host, least significant byte first. *)
Definition as_bytes (x : word_t) : list byte := le_split 32 x.

End intx.

(** [std::size_t] addition. *)
Definition size_add (a b : Z) : Z := (a + b) mod 2 ^ 64.

(** [to_uint256]: [None] is the [std::invalid_argument] it throws. *)
Definition to_uint256 (byte_array : list byte) : option word_t :=
  if kWordSize <? Z.of_nat (length byte_array) then None
  else Some (fold_left
               (fun word b => intx.or (intx.shl64 word kByteSize) (intx.of_byte b))
               byte_array 0).

(** ** Execution state *)

Record ExecutionContext : Type := mkExecutionContext {
  program_counter : Z;
  bytecode : list byte;
  stack : list word_t;
  memory : list byte
}.

Definition set_program_counter (ec : ExecutionContext) (pc : Z) : ExecutionContext :=
  mkExecutionContext pc (bytecode ec) (stack ec) (memory ec).
Definition set_stack (ec : ExecutionContext) (s : list word_t) : ExecutionContext :=
  mkExecutionContext (program_counter ec) (bytecode ec) s (memory ec).
Definition set_memory (ec : ExecutionContext) (m : list byte) : ExecutionContext :=
  mkExecutionContext (program_counter ec) (bytecode ec) (stack ec) m.

(** [memory_t memory{}]: [kMemorySize] zero bytes. *)
Definition fresh_memory : list byte := repeat Byte.x00 (Z.to_nat kMemorySize).

(** The context of a new [Interpreter] once [LoadBytecode] has stored [bc]. *)
Definition loaded (bc : list byte) : ExecutionContext :=
  mkExecutionContext 0 bc [] fresh_memory.

(** What a handler call does: it returns the context, or it throws.  A
    throw leaves the context as the handler had written it so far. *)
Inductive outcome : Type :=
| Return (ec : ExecutionContext)
| ThrowRuntimeError (who : string) (e : RevertError) (ec : ExecutionContext)
| ThrowOutOfRange (ec : ExecutionContext)
| ThrowInvalidArgument (ec : ExecutionContext)
| Undefined.

Definition stack_size (ec : ExecutionContext) : Z := Z.of_nat (length (stack ec)).

(** [std::span{std::next(std::begin(c), from), count}] read in full: defined
    only when the whole span lies inside [c]. *)
Definition span_of {A : Type} (c : list A) (from count : Z) : option (list A) :=
  if from + count <=? Z.of_nat (length c)
  then Some (firstn (Z.to_nat count) (skipn (Z.to_nat from) c))
  else None.

(** [std::ranges::copy(src, std::next(std::begin(c), at))]: defined only when
    the destination range lies inside [c]. *)
Definition copy_to {A : Type} (c : list A) (at_ : Z) (src : list A) : option (list A) :=
  if at_ + Z.of_nat (length src) <=? Z.of_nat (length c)
  then Some (firstn (Z.to_nat at_) c ++ src
             ++ skipn (Z.to_nat at_ + length src) c)
  else None.

(** ** Opcode handlers *)

(** [PushToStack<num_bytes>] *)
Definition PushToStack (num_bytes : Z) (ec : ExecutionContext) : outcome :=
  let push_item (stack_item : word_t) : outcome :=
    let ec' := set_stack ec (stack_item :: stack ec) in
    if kMaxStackSize <? stack_size ec'
    then ThrowRuntimeError "PUSHn" kStackOverflow ec'
    else Return ec' in
  if num_bytes =? 0 then push_item 0
  else
    match span_of (bytecode ec) (size_add (program_counter ec) 1) num_bytes with
    | None => Undefined
    | Some stack_item_bytes =>
        match to_uint256 stack_item_bytes with
        | None => ThrowInvalidArgument ec
        | Some stack_item => push_item stack_item
        end
    end.

Definition Jump (ec : ExecutionContext) : outcome :=
  if stack_size ec <? 1
  then ThrowRuntimeError "JUMP" kStackUnderflow ec
  else
    match stack ec with
    | [] => Undefined
    | counter :: rest =>
        let ec' := set_program_counter (set_stack ec rest) (intx.to_size_t counter) in
        match nth_error (bytecode ec') (Z.to_nat (program_counter ec')) with
        | None => ThrowOutOfRange ec'
        | Some b =>
            if negb (Byte.eqb b kJumpDest)
            then ThrowRuntimeError "JUMP" kInvalidJump ec'
            else Return ec'
        end
    end.

Definition StoreToMemory (ec : ExecutionContext) : outcome :=
  if stack_size ec <? 2
  then ThrowRuntimeError "MSTORE" kStackUnderflow ec
  else
    match stack ec with
    | offset :: value :: rest =>
        let value_bytes_span := intx.as_bytes value in
        match copy_to (memory ec) (intx.to_size_t offset) (rev value_bytes_span) with
        | None => Undefined
        | Some m => Return (set_memory (set_stack ec rest) m)
        end
    | _ => Undefined
    end.

Definition LoadFromMemory (ec : ExecutionContext) : outcome :=
  if stack_size ec <? 1
  then ThrowRuntimeError "MLOAD" kStackUnderflow ec
  else
    match stack ec with
    | [] => Undefined
    | offset :: rest =>
        match span_of (memory ec) (intx.to_size_t offset) kWordSize with
        | None => Undefined
        | Some value_span =>
            match to_uint256 value_span with
            | None => ThrowInvalidArgument (set_stack ec rest)
            | Some w => Return (set_stack ec (w :: rest))
            end
        end
    end.

Definition SwapStackValues (ec : ExecutionContext) : outcome :=
  if stack_size ec <? 2
  then ThrowRuntimeError "SWAPn" kStackUnderflow ec
  else
    match stack ec with
    | first :: second :: rest => Return (set_stack ec (second :: first :: rest))
    | _ => Undefined
    end.

(** The first [for_each] of [DuplicateStackValue]: the window is filled front
    to back, each element with [top] followed by [pop].  [None]: [top] was
    called on an empty stack. *)
Fixpoint fill_window (idx : nat) (s : list word_t) : option (list word_t * list word_t) :=
  match idx with
  | O => Some ([], s)
  | S n =>
      match s with
      | [] => None
      | elem :: s' =>
          match fill_window n s' with
          | None => None
          | Some (window, s'') => Some (elem :: window, s'')
          end
      end
  end.

(** The second [for_each]: [push] each element in turn. *)
Definition push_each (elems : list word_t) (s : list word_t) : list word_t :=
  fold_left (fun st elem => elem :: st) elems s.

(** [DuplicateStackValue<idx>] *)
Definition DuplicateStackValue (idx : nat) (ec : ExecutionContext) : outcome :=
  match fill_window idx (stack ec) with
  | None => Undefined
  | Some (stack_contents_window, s) =>
      let s' := push_each (rev stack_contents_window) s in
      match nth_error stack_contents_window (Nat.pred idx) with
      | None => Undefined
      | Some back =>
          let ec' := set_stack ec (back :: s') in
          if kMaxStackSize <? stack_size ec'
          then ThrowRuntimeError "DUPn" kStackOverflow ec'
          else Return ec'
      end
  end.

Definition ShiftLeft (ec : ExecutionContext) : outcome :=
  if stack_size ec <? 2
  then ThrowRuntimeError "SHL" kStackUnderflow ec
  else
    match stack ec with
    | shift :: value :: rest => Return (set_stack ec (intx.shl value shift :: rest))
    | _ => Undefined
    end.

(** ** The dispatch loop *)

Definition kOpcodeHandlers : list (opcode_t * (ExecutionContext -> outcome)) :=
  [ (kJump, Jump);
    (kDup3, DuplicateStackValue 3);
    (kPush2, PushToStack 2);
    (kPush0, PushToStack 0);
    (kMLoad, LoadFromMemory);
    (kShl, ShiftLeft);
    (kPush12, PushToStack 12);
    (kPush1, PushToStack 1);
    (kMStore, StoreToMemory);
    (kSwap1, SwapStackValues);
    (kDup2, DuplicateStackValue 2) ].

(** Why a run stopped early.  [Interpret] has two [catch] clauses: the one
    for [std::out_of_range] reports the fetched opcode as unrecognized, the
    one for [std::runtime_error] reports the handler's message. *)
Inductive Fault : Type :=
| UnrecognizedOpcode (opcode : opcode_t)
| Revert (who : string) (e : RevertError).

(** [Running]: the loop goes on with this context.  [Halted]: the loop
    condition failed.  [Aborted]: a [catch] clause returned.  [Crashed]: no
    defined behaviour, or an exception no clause catches. *)
Inductive run_state : Type :=
| Running (ec : ExecutionContext)
| Halted (ec : ExecutionContext)
| Aborted (f : Fault) (ec : ExecutionContext)
| Crashed.

(** One evaluation of the [while] condition and, if it holds, of the body. *)
Definition Interpret_step (ec : ExecutionContext) : run_state :=
  if program_counter ec <? Z.of_nat (length (bytecode ec)) then
    match nth_error (bytecode ec) (Z.to_nat (program_counter ec)) with
    | None => Crashed
    | Some opcode =>
        match map_at kOpcodeHandlers opcode with
        | None => Aborted (UnrecognizedOpcode opcode) ec
        | Some handler =>
            match handler ec with
            | Return ec1 =>
                let ec2 := set_program_counter ec1 (size_add (program_counter ec1) 1) in
                match map_at kOpcodeInfo opcode with
                | None => Aborted (UnrecognizedOpcode opcode) ec2
                | Some info =>
                    Running (set_program_counter ec2
                               (size_add (program_counter ec2) (advance_by info)))
                end
            | ThrowOutOfRange ec1 => Aborted (UnrecognizedOpcode opcode) ec1
            | ThrowRuntimeError who e ec1 => Aborted (Revert who e) ec1
            | ThrowInvalidArgument _ => Crashed
            | Undefined => Crashed
            end
        end
    end
  else Halted ec.

(** [Interpret], with a bound on the number of loop iterations; [Running]
    as a result means that the bound was reached first. *)
Fixpoint Interpret (fuel : nat) (ec : ExecutionContext) : run_state :=
  match fuel with
  | O => Running ec
  | S fuel' =>
      match Interpret_step ec with
      | Running ec' => Interpret fuel' ec'
      | stopped => stopped
      end
  end.

(** Bytecode written as numbers, for examples. *)
Definition hex (l : list Z) : list byte := map byte.of_Z l.

(** What a finished run shows of its context: program counter and stack.
    (The memory is [kMemorySize] bytes long and is looked at by slices.) *)
Definition halted_at (r : run_state) : option (Z * list word_t) :=
  match r with
  | Halted ec => Some (program_counter ec, stack ec)
  | _ => None
  end.

Definition aborted_at (r : run_state) : option (Fault * Z * list word_t) :=
  match r with
  | Aborted f ec => Some (f, program_counter ec, stack ec)
  | _ => None
  end.

(** ** Loading the bytecode

    [LoadBytecode] reads the file through [std::views::istream<char>], which
    skips white space, cuts the characters into chunks of two, and converts
    each chunk with [std::stoi(_, nullptr, kHexBase)]. *)

Definition set_bytecode (ec : ExecutionContext) (bc : list byte) : ExecutionContext :=
  mkExecutionContext (program_counter ec) bc (stack ec) (memory ec).

Definition char_code (c : ascii) : Z := Z.of_N (N_of_ascii c).

(** [std::isspace] in the classic locale: space and the controls 9 to 13. *)
Definition is_space (c : ascii) : bool :=
  (char_code c =? 32) || ((9 <=? char_code c) && (char_code c <=? 13)).

(** The value [strtol] gives a character as a digit: 0-9, then the letters
    of either case from 10 on. *)
Definition digit_value (c : ascii) : option Z :=
  let n := char_code c in
  if (48 <=? n) && (n <=? 57) then Some (n - 48)
  else if (97 <=? n) && (n <=? 122) then Some (n - 97 + 10)
  else if (65 <=? n) && (n <=? 90) then Some (n - 65 + 10)
  else None.

(** A digit of the base [kHexBase]. *)
Definition hex_digit (c : ascii) : option Z :=
  match digit_value c with
  | Some d => if d <? kHexBase then Some d else None
  | None => None
  end.

Definition starts_with_hex_digit (s : list ascii) : bool :=
  match s with
  | c :: _ => match hex_digit c with Some _ => true | None => false end
  | [] => false
  end.

(** The value of the longest run of hexadecimal digits [s] starts with. *)
Fixpoint digits_value (acc : Z) (s : list ascii) : Z :=
  match s with
  | c :: rest =>
      match hex_digit c with
      | Some d => digits_value (acc * kHexBase + d) rest
      | None => acc
      end
  | [] => acc
  end.

Fixpoint skip_spaces (s : list ascii) : list ascii :=
  match s with
  | c :: rest => if is_space c then skip_spaces rest else s
  | [] => []
  end.

Inductive stoi_result : Type :=
| StoiValue (v : Z)
| StoiInvalidArgument
| StoiOutOfRange.

(** [std::stoi(str, nullptr, 16)]: leading white space, an optional sign, an
    optional [0x] or [0X] when a hexadecimal digit follows it, then the
    longest run of hexadecimal digits.  No digit: [std::invalid_argument];
    a value that does not fit [int]: [std::out_of_range]. *)
Definition stoi_hex (str : list ascii) : stoi_result :=
  let s := skip_spaces str in
  let '(negative, s) :=
    match s with
    | c :: rest =>
        if char_code c =? 45 then (true, rest)
        else if char_code c =? 43 then (false, rest)
        else (false, s)
    | [] => (false, s)
    end in
  let s :=
    match s with
    | z :: x :: rest =>
        if (char_code z =? 48) && ((char_code x =? 120) || (char_code x =? 88))
           && starts_with_hex_digit rest
        then rest else s
    | _ => s
    end in
  if starts_with_hex_digit s then
    let magnitude := digits_value 0 s in
    let v := if negative then - magnitude else magnitude in
    if (- 2 ^ 31 <=? v) && (v <=? 2 ^ 31 - 1) then StoiValue v else StoiOutOfRange
  else StoiInvalidArgument.

(** [ranges::views::chunk(2)] *)
Fixpoint chunk2 {A : Type} (l : list A) : list (list A) :=
  match l with
  | a :: b :: rest => [a; b] :: chunk2 rest
  | [a] => [[a]]
  | [] => []
  end.

(** The transformed range collected into a vector, chunk by chunk; the first
    chunk [std::stoi] rejects ends the collection with its exception. *)
Fixpoint collect_bytes (chunks : list (list ascii)) : list byte + stoi_result :=
  match chunks with
  | [] => inl []
  | byte_str :: rest =>
      match stoi_hex byte_str with
      | StoiValue v =>
          match collect_bytes rest with
          | inl bytes => inl (byte.of_Z v :: bytes)
          | inr e => inr e
          end
      | e => inr e
      end
  end.

(** What a call of [LoadBytecode] does; a throw leaves the context as
    written so far. *)
Inductive load_outcome : Type :=
| Loaded (ec : ExecutionContext)
| LoadThrowRuntimeError (ec : ExecutionContext)
| LoadThrowInvalidArgument (ec : ExecutionContext)
| LoadThrowOutOfRange (ec : ExecutionContext).

(** [LoadBytecode].  [file] is the content of the file at [bc_filepath], or
    [None] when the stream could not be opened. *)
Definition LoadBytecode (file : option string) (ec : ExecutionContext) : load_outcome :=
  let ec := set_bytecode ec [] in
  match file with
  | None => LoadThrowRuntimeError ec
  | Some content =>
      let bc_str := filter (fun c => negb (is_space c)) (list_ascii_of_string content) in
      match collect_bytes (chunk2 bc_str) with
      | inl bytes => Loaded (set_bytecode ec bytes)
      | inr StoiOutOfRange => LoadThrowOutOfRange ec
      | inr _ => LoadThrowInvalidArgument ec
      end
  end.

(** ** Printing the stack *)

(** The digit [std::format] writes for a value below 16 with the type [x]. *)
Definition format_x_digit (d : Z) : ascii :=
  ascii_of_N (Z.to_N (if d <? 10 then 48 + d else 87 + d)).

(** [std::format("{:02x}, ", byte)] *)
Definition format_02x_sep (b : byte) : list ascii :=
  [format_x_digit (byte.unsigned b / 16); format_x_digit (byte.unsigned b mod 16);
   ascii_of_N 44; ascii_of_N 32].

(** The line [PrintStack] writes for one word: its [kWordSize] bytes, most
    significant first. *)
Definition print_word (top_word : word_t) : list ascii :=
  flat_map format_02x_sep (rev (intx.as_bytes top_word)).

(** [PrintStack]: the lines written to standard output, from a copy of the
    stack that is popped until it is empty. *)
Definition PrintStack (ec : ExecutionContext) : list string :=
  "printing stack contents ..."%string
  :: map (fun top_word => string_of_list_ascii (print_word top_word)) (stack ec)
  ++ ["finished"%string].

(** ** Reference definitions

    These follow the wording of the specification, not the code, and are
    what the code's results are compared with. *)

(** The unsigned integer a byte sequence represents when read big-endian:
    the first byte is the most significant one. *)
Fixpoint be_value (bs : list byte) : Z :=
  match bs with
  | [] => 0
  | b :: rest => byte.unsigned b * 256 ^ Z.of_nat (length rest) + be_value rest
  end.

(** The [n]-byte big-endian encoding of [v]: most significant byte first. *)
Fixpoint be_bytes (n : nat) (v : Z) : list byte :=
  match n with
  | O => []
  | S n' => byte.of_Z (v / 256 ^ Z.of_nat n') :: be_bytes n' v
  end.

(** [value << shift] under modulo-2^256 wrap-around. *)
Definition shl_mod (value shift : Z) : Z := (value * 2 ^ shift) mod 2 ^ 256.

(** The text of a bytecode file: two hexadecimal characters per byte, the
    high digit first, no separators. *)
Definition hex_text (bs : list byte) : list ascii :=
  flat_map (fun b => [format_x_digit (byte.unsigned b / 16);
                      format_x_digit (byte.unsigned b mod 16)]) bs.

(** How many words an instruction adds to the stack when it succeeds. *)
Definition stack_effect (opcode : opcode_t) : Z :=
  if existsb (Byte.eqb opcode) [kPush0; kPush1; kPush2; kPush12; kDup2; kDup3] then 1
  else if existsb (Byte.eqb opcode) [kShl; kJump] then -1
  else if Byte.eqb opcode kMStore then -2
  else 0.

(** A word of the machine. *)
Definition is_word (w : Z) : Prop := 0 <= w < 2 ^ 256.

(** The loop is about to run a PUSHn or DUPk whose operands are there: the
    immediate bytes of the PUSHn inside the bytecode, k words on the stack
    for DUPk (the handler's behaviour is defined). *)
Definition push_ready (ec : ExecutionContext) : Prop :=
  exists opcode handler,
    nth_error (bytecode ec) (Z.to_nat (program_counter ec)) = Some opcode /\
    In opcode [kPush0; kPush1; kPush2; kPush12; kDup2; kDup3] /\
    map_at kOpcodeHandlers opcode = Some handler /\
    handler ec <> Undefined.

(** What the C++ types guarantee of a context: the program counter is a
    [std::size_t], the bytecode fits a [std::vector] (at most [2^63 - 1]
    bytes), the stack holds words, and the memory is an array of
    [kMemorySize] bytes. *)
Record context_ok (ec : ExecutionContext) : Prop := mk_context_ok {
  pc_range : 0 <= program_counter ec < 2 ^ 64;
  bytecode_fits : Z.of_nat (length (bytecode ec)) < 2 ^ 63;
  stack_words : Forall is_word (stack ec);
  memory_size : Z.of_nat (length (memory ec)) = kMemorySize
}.

(** * Properties *)

(** Case analysis on every [match] scrutinee of the goal. *)
Ltac break_match :=
  repeat match goal with
         | |- context [match ?x with _ => _ end] => destruct x
         end.

(** ** Words and byte order *)

Section Words.

Lemma lor_shiftl_add (a b k : Z) :
  0 <= k -> 0 <= a < 2 ^ k -> Z.lor a (Z.shiftl b k) = a + b * 2 ^ k.
Proof.
  intros Hk Ha.
  rewrite bitblast.Z.or_to_plus;
    [rewrite Z.shiftl_mul_pow2 by assumption; reflexivity|].
  apply Z.bits_inj'. intros n Hn.
  rewrite Z.land_spec, Z.bits_0.
  destruct (Z.ltb_spec n k) as [Hlt | Hge].
  - rewrite Z.shiftl_spec_low by assumption. apply andb_false_r.
  - rewrite <- (Z.mod_small a (2 ^ k)) by assumption.
    rewrite Z.mod_pow2_bits_high by lia. reflexivity.
Qed.

Lemma shl64_byte_small (w : Z) (k : Z) :
  0 <= k <= 31 -> 0 <= w < 2 ^ (8 * k) ->
  intx.shl64 w kByteSize = w * 256.
Proof.
  intros Hk Hw. unfold intx.shl64, intx.wrap, intx.num_bits, kByteSize.
  change (256 <=? 8) with false. cbv iota.
  rewrite Z.shiftl_mul_pow2 by lia. change (2 ^ 8) with 256.
  apply Z.mod_small.
  assert (Hp : 2 ^ (8 * k) <= 2 ^ 248) by (apply Z.pow_le_mono_r; lia).
  assert (E : 2 ^ 256 = 2 ^ 248 * 256) by reflexivity.
  rewrite E. generalize dependent (2 ^ 248). generalize dependent (2 ^ (8 * k)).
  intros; lia.
Qed.

(** The loop of [to_uint256], read from the last byte to the first, is the
    little-endian combination of the reversed sequence. *)
Lemma to_uint256_loop_le_combine (l : list byte) :
  (length l <= 32)%nat ->
  fold_right (fun b word => intx.or (intx.shl64 word kByteSize) (intx.of_byte b)) 0 l
  = le_combine l.
Proof.
  induction l as [| b t IH]; intros Hlen; [reflexivity|].
  cbn [fold_right le_combine length] in *.
  rewrite IH by lia.
  pose proof (le_combine_bound t) as Hb.
  rewrite (shl64_byte_small _ (Z.of_nat (length t))) by lia.
  unfold intx.or, intx.of_byte.
  rewrite Z.lor_comm.
  change (le_combine (b :: t))
    with (Z.lor (byte.unsigned b) (Z.shiftl (le_combine t) 8)).
  rewrite Z.shiftl_mul_pow2 by lia. reflexivity.
Qed.

Lemma to_uint256_le_combine (bs : list byte) :
  (length bs <= 32)%nat -> to_uint256 bs = Some (le_combine (rev bs)).
Proof.
  intros Hlen. unfold to_uint256, kWordSize.
  destruct (Z.ltb_spec 32 (Z.of_nat (length bs))) as [Hgt | _]; [lia|].
  rewrite <- to_uint256_loop_le_combine by (rewrite length_rev; exact Hlen).
  rewrite fold_left_rev_right. reflexivity.
Qed.

Lemma be_value_le_combine (bs : list byte) : be_value bs = le_combine (rev bs).
Proof.
  induction bs as [| b r IH]; [reflexivity|].
  cbn [be_value rev]. rewrite le_combine_app, le_combine_1, length_rev.
  pose proof (le_combine_bound (rev r)) as Hb. rewrite length_rev in Hb.
  rewrite lor_shiftl_add by (rewrite (Z.mul_comm _ 8); lia).
  rewrite IH. change 256 with (2 ^ 8). rewrite <- Z.pow_mul_r by lia.
  rewrite (Z.mul_comm 8). lia.
Qed.

(** [to_uint256] computes the big-endian value of its argument. *)
Lemma to_uint256_be_value (bs : list byte) :
  (length bs <= 32)%nat -> to_uint256 bs = Some (be_value bs).
Proof.
  intros H. rewrite be_value_le_combine. apply to_uint256_le_combine, H.
Qed.

Lemma to_uint256_too_long (bs : list byte) :
  (32 < length bs)%nat -> to_uint256 bs = None.
Proof.
  intros H. unfold to_uint256, kWordSize.
  destruct (Z.ltb_spec 32 (Z.of_nat (length bs))); [reflexivity | lia].
Qed.

Lemma be_value_bound (bs : list byte) :
  0 <= be_value bs < 2 ^ (8 * Z.of_nat (length bs)).
Proof.
  rewrite be_value_le_combine.
  pose proof (le_combine_bound (rev bs)) as H. rewrite length_rev in H. exact H.
Qed.

Lemma be_bytes_snoc (n : nat) (v : Z) :
  be_bytes (S n) v = be_bytes n (v / 256) ++ [byte.of_Z v].
Proof.
  revert v. induction n as [| m IH]; intros v.
  - cbn. rewrite Z.div_1_r. reflexivity.
  - change (be_bytes (S (S m)) v)
      with (byte.of_Z (v / 256 ^ Z.of_nat (S m)) :: be_bytes (S m) v).
    rewrite IH. cbn [be_bytes app]. f_equal. f_equal.
    rewrite Z.div_div by lia. f_equal.
    rewrite Nat2Z.inj_succ, Z.pow_succ_r by lia. reflexivity.
Qed.

(** The object representation of a word, reversed, is its big-endian
    encoding. *)
Lemma rev_le_split_be_bytes (n : nat) (v : Z) : rev (le_split n v) = be_bytes n v.
Proof.
  revert v. induction n as [| m IH]; intros v; [reflexivity|].
  rewrite be_bytes_snoc.
  change (le_split (S m) v) with (byte.of_Z v :: le_split m (Z.shiftr v 8)).
  cbn [rev]. rewrite IH.
  rewrite Z.shiftr_div_pow2 by lia. reflexivity.
Qed.

Lemma length_be_bytes (n : nat) (v : Z) : length (be_bytes n v) = n.
Proof. rewrite <- rev_le_split_be_bytes, length_rev. apply length_le_split. Qed.

(** Decoding the 32-byte big-endian encoding of a word gives the word. *)
Lemma to_uint256_be_bytes (v : Z) :
  is_word v -> to_uint256 (be_bytes 32 v) = Some v.
Proof.
  intros Hv. rewrite to_uint256_le_combine by (rewrite length_be_bytes; lia).
  rewrite <- rev_le_split_be_bytes, rev_involutive, le_combine_split.
  f_equal. apply Z.mod_small. exact Hv.
Qed.

(** Encoding the value of at most 32 bytes pads them with zero bytes on the
    most significant side. *)
Lemma be_bytes_be_value (bs : list byte) :
  (length bs <= 32)%nat ->
  be_bytes 32 (be_value bs) = repeat Byte.x00 (32 - length bs) ++ bs.
Proof.
  intros Hlen. rewrite <- rev_le_split_be_bytes, be_value_le_combine.
  rewrite <- (le_combine_app_0 (rev bs) (32 - length bs)).
  rewrite split_le_combine'
    by (rewrite length_app, length_rev, repeat_length; lia).
  rewrite rev_app_distr, rev_involutive, rev_repeat. reflexivity.
Qed.

End Words.

(** ** Stack primitives *)

Section StackFacts.

Lemma stack_size_set_stack (ec : ExecutionContext) (s : list word_t) :
  stack_size (set_stack ec s) = Z.of_nat (length s).
Proof. reflexivity. Qed.

Lemma stack_size_nonneg (ec : ExecutionContext) : 0 <= stack_size ec.
Proof. unfold stack_size. lia. Qed.

(** Pushing, followed by the size check that [PushToStack] and
    [DuplicateStackValue] share: the word is on the stack either way. *)
Lemma push_then_check (who : string) (ec : ExecutionContext) (w : word_t) :
  let ec' := set_stack ec (w :: stack ec) in
  (if kMaxStackSize <? stack_size ec'
   then ThrowRuntimeError who kStackOverflow ec'
   else Return ec')
  = if stack_size ec <? kMaxStackSize
    then Return ec'
    else ThrowRuntimeError who kStackOverflow ec'.
Proof.
  intros ec'. subst ec'. rewrite stack_size_set_stack. unfold stack_size.
  cbn [length]. rewrite Nat2Z.inj_succ.
  destruct (Z.ltb_spec kMaxStackSize (Z.succ (Z.of_nat (length (stack ec)))));
    destruct (Z.ltb_spec (Z.of_nat (length (stack ec))) kMaxStackSize);
    try reflexivity; lia.
Qed.

Lemma fill_window_firstn_skipn (idx : nat) (s : list word_t) :
  (idx <= length s)%nat -> fill_window idx s = Some (firstn idx s, skipn idx s).
Proof.
  revert s. induction idx as [| n IH]; intros s Hlen; [reflexivity|].
  destruct s as [| elem s']; cbn [length] in Hlen; [lia|].
  cbn [fill_window firstn skipn]. rewrite IH by lia. reflexivity.
Qed.

Lemma fill_window_short (idx : nat) (s : list word_t) :
  (length s < idx)%nat -> fill_window idx s = None.
Proof.
  revert s. induction idx as [| n IH]; intros s Hlen; [lia|].
  destruct s as [| elem s']; [reflexivity|].
  cbn [length] in Hlen. cbn [fill_window]. rewrite IH by lia. reflexivity.
Qed.

Lemma push_each_rev (elems s : list word_t) : push_each elems s = rev elems ++ s.
Proof.
  unfold push_each. revert s.
  induction elems as [| e r IH]; intros s; [reflexivity|].
  cbn [fold_left rev]. rewrite IH, <- app_assoc. reflexivity.
Qed.

(** Popping [idx] words into the window and pushing the window back in
    reverse restores the stack. *)
Lemma window_restored (idx : nat) (s : list word_t) :
  (idx <= length s)%nat ->
  exists window rest,
    fill_window idx s = Some (window, rest) /\
    window = firstn idx s /\
    push_each (rev window) rest = s.
Proof.
  intros Hlen. exists (firstn idx s), (skipn idx s).
  split; [apply fill_window_firstn_skipn, Hlen|]. split; [reflexivity|].
  rewrite push_each_rev, rev_involutive. apply firstn_skipn.
Qed.

Lemma span_of_some {A : Type} (c : list A) (from count : Z) :
  0 <= from -> 0 <= count -> from + count <= Z.of_nat (length c) ->
  exists l, span_of c from count = Some l /\
            l = firstn (Z.to_nat count) (skipn (Z.to_nat from) c) /\
            length l = Z.to_nat count.
Proof.
  intros Hf Hc Hle. unfold span_of.
  destruct (Z.leb_spec (from + count) (Z.of_nat (length c))); [|lia].
  eexists. split; [reflexivity|]. split; [reflexivity|].
  rewrite length_firstn, length_skipn. lia.
Qed.

End StackFacts.

(** ** PUSHn *)

Section Push.

(** The dispatch tables bind the four PUSH opcodes to [PushToStack] at
    their own width, and record that width as the immediate length. *)
Lemma push_opcodes_dispatch :
  map_at kOpcodeHandlers kPush0 = Some (PushToStack 0) /\
  map_at kOpcodeHandlers kPush1 = Some (PushToStack 1) /\
  map_at kOpcodeHandlers kPush2 = Some (PushToStack 2) /\
  map_at kOpcodeHandlers kPush12 = Some (PushToStack 12) /\
  option_map advance_by (map_at kOpcodeInfo kPush0) = Some 0 /\
  option_map advance_by (map_at kOpcodeInfo kPush1) = Some 1 /\
  option_map advance_by (map_at kOpcodeInfo kPush2) = Some 2 /\
  option_map advance_by (map_at kOpcodeInfo kPush12) = Some 12.
Proof. repeat split. Qed.

(** What [PushToStack] does once its item is known. *)
Lemma PushToStack_item (n : Z) (ec : ExecutionContext) (bs : list byte) :
  (n = 0 /\ bs = []) \/
  (n <> 0 /\ span_of (bytecode ec) (size_add (program_counter ec) 1) n = Some bs
   /\ (length bs <= 32)%nat) ->
  PushToStack n ec =
  if stack_size ec <? kMaxStackSize
  then Return (set_stack ec (be_value bs :: stack ec))
  else ThrowRuntimeError "PUSHn" kStackOverflow (set_stack ec (be_value bs :: stack ec)).
Proof.
  intros [[-> ->] | (Hn & Hspan & Hlen)]; unfold PushToStack.
  - cbn [Z.eqb be_value]. apply push_then_check.
  - destruct (Z.eqb_spec n 0) as [|_]; [contradiction|].
    rewrite Hspan, (to_uint256_be_value bs Hlen). apply push_then_check.
Qed.

(** C4.  PUSHn for n in {0, 1, 2, 12}, with its n immediate bytes inside
    the bytecode, pushes the big-endian value of the n bytes that follow
    the opcode; read as a 32-byte big-endian word that value is the n
    bytes with 32 - n zero bytes in front, and for n = 0 it is the zero
    word, read from no byte at all.  The word is pushed whether or not the
    size check that follows the push then reports an overflow. *)
Theorem PushToStack_big_endian (n : Z) (ec : ExecutionContext) :
  In n [0; 1; 2; 12] ->
  (n <> 0 ->
   0 <= program_counter ec /\
   program_counter ec + 1 + n <= Z.of_nat (length (bytecode ec)) < 2 ^ 63) ->
  let bs := firstn (Z.to_nat n)
              (skipn (Z.to_nat (program_counter ec + 1)) (bytecode ec)) in
  let ec' := set_stack ec (be_value bs :: stack ec) in
  length bs = Z.to_nat n /\
  (n = 0 -> be_value bs = 0) /\
  be_bytes 32 (be_value bs) = repeat Byte.x00 (32 - Z.to_nat n) ++ bs /\
  (stack_size ec < kMaxStackSize -> PushToStack n ec = Return ec') /\
  (kMaxStackSize <= stack_size ec ->
   PushToStack n ec = ThrowRuntimeError "PUSHn" kStackOverflow ec').
Proof.
  intros Hn Himm bs ec'.
  assert (Hn' : n = 0 \/ n = 1 \/ n = 2 \/ n = 12) by (cbn in Hn; intuition lia).
  clear Hn.
  assert (Hcases :
    (n = 0 /\ bs = []) \/
    (n <> 0 /\ span_of (bytecode ec) (size_add (program_counter ec) 1) n = Some bs
     /\ length bs = Z.to_nat n)).
  { destruct (Z.eq_dec n 0) as [-> | Hnz]; [left; split; reflexivity|].
    right. split; [exact Hnz|]. destruct (Himm Hnz) as (Hpc & Hin & Hfit).
    assert (Hadd : size_add (program_counter ec) 1 = program_counter ec + 1)
      by (unfold size_add; apply Z.mod_small; lia).
    rewrite Hadd.
    destruct (span_of_some (bytecode ec) (program_counter ec + 1) n)
      as (l & Hl & Heq & Hlen); try lia.
    subst bs. rewrite <- Heq. split; [exact Hl | exact Hlen]. }
  assert (Hlen : length bs = Z.to_nat n).
  { destruct Hcases as [[-> ->] | (_ & _ & H)]; [reflexivity | exact H]. }
  assert (Hshort : (length bs <= 32)%nat).
  { rewrite Hlen. lia. }
  split; [exact Hlen|].
  split; [intros ->; subst bs; reflexivity|].
  split; [rewrite <- Hlen; apply be_bytes_be_value, Hshort|].
  assert (Hrun := PushToStack_item n ec bs).
  rewrite Hrun by (destruct Hcases as [H | (H1 & H2 & _)]; [left | right]; auto).
  split; intros Hsz.
  - destruct (Z.ltb_spec (stack_size ec) kMaxStackSize); [reflexivity | lia].
  - destruct (Z.ltb_spec (stack_size ec) kMaxStackSize); [lia | reflexivity].
Qed.

(** PUSH2 with immediate bytes 01 02 pushes 0x0102 = 258, not 0x0201. *)
Lemma PushToStack_big_endian_witness :
  PushToStack 2 (loaded (hex [0x61; 0x01; 0x02]))
  = Return (set_stack (loaded (hex [0x61; 0x01; 0x02])) [258]).
Proof.
  apply (PushToStack_big_endian 2 (loaded (hex [0x61; 0x01; 0x02]))).
  - cbn. auto.
  - intros _. vm_compute. repeat split; discriminate.
  - vm_compute. reflexivity.
Defined.

(** The same bytes run through the dispatch loop: the run halts with 258
    on top of the stack. *)
Example push2_run :
  halted_at (Interpret 2 (loaded (hex [0x61; 0x01; 0x02]))) = Some (3, [258]).
Proof. vm_compute. reflexivity. Qed.

(** [60 FF] leaves 255 on top. *)
Example push1_run :
  halted_at (Interpret 2 (loaded (hex [0x60; 0xFF]))) = Some (2, [255]).
Proof. vm_compute. reflexivity. Qed.

End Push.

(** ** DUPk *)

Section Dup.

Lemma dup_opcodes_dispatch :
  map_at kOpcodeHandlers kDup2 = Some (DuplicateStackValue 2) /\
  map_at kOpcodeHandlers kDup3 = Some (DuplicateStackValue 3).
Proof. split; reflexivity. Qed.

(** With fewer than [idx] words on the stack the first loop calls [top] on
    an empty stack; the source has no check (it carries a TODO for one). *)
Lemma DuplicateStackValue_short (idx : nat) (ec : ExecutionContext) :
  (length (stack ec) < idx)%nat -> DuplicateStackValue idx ec = Undefined.
Proof.
  intros H. unfold DuplicateStackValue.
  rewrite fill_window_short by exact H. reflexivity.
Qed.

Lemma DuplicateStackValue_deep (idx : nat) (ec : ExecutionContext) (x : word_t) :
  (1 <= idx)%nat ->
  nth_error (stack ec) (idx - 1) = Some x ->
  DuplicateStackValue idx ec =
  if stack_size ec <? kMaxStackSize
  then Return (set_stack ec (x :: stack ec))
  else ThrowRuntimeError "DUPn" kStackOverflow (set_stack ec (x :: stack ec)).
Proof.
  intros Hidx Hx.
  assert (Hlen : (idx <= length (stack ec))%nat).
  { assert (idx - 1 < length (stack ec))%nat
      by (apply nth_error_Some; congruence). lia. }
  destruct (window_restored idx (stack ec) Hlen) as (w & rest & Hfill & Hw & Hback).
  unfold DuplicateStackValue. rewrite Hfill, Hback.
  replace (Nat.pred idx) with (idx - 1)%nat by lia.
  rewrite Hw, nth_error_firstn.
  destruct (Nat.ltb_spec (idx - 1) idx) as [_ | Hge]; [|lia].
  rewrite Hx. apply push_then_check.
Qed.

(** C6.  DUPk on a stack of depth at least k, whose k-th word from the top
    is [x], leaves the old stack in place, in its order, with one new top
    word equal to [x]: the k words are popped into the window, pushed back
    in reverse, and the last of the window is pushed once more.  (The size
    check after the push reports an overflow when the stack was full; the
    stack is the same in both cases.) *)
Theorem DuplicateStackValue_copies_kth
    (k : nat) (ec : ExecutionContext) (x : word_t) :
  In k [2%nat; 3%nat] ->
  (k <= length (stack ec))%nat ->
  nth_error (stack ec) (k - 1) = Some x ->
  let ec' := set_stack ec (x :: stack ec) in
  (stack_size ec < kMaxStackSize -> DuplicateStackValue k ec = Return ec') /\
  (kMaxStackSize <= stack_size ec ->
   DuplicateStackValue k ec = ThrowRuntimeError "DUPn" kStackOverflow ec').
Proof.
  intros Hk _ Hx ec'.
  assert (H1 : (1 <= k)%nat) by (cbn in Hk; lia).
  rewrite (DuplicateStackValue_deep k ec x H1 Hx).
  split; intros Hsz;
    destruct (Z.ltb_spec (stack_size ec) kMaxStackSize); (reflexivity || lia).
Qed.

(** DUP3 on the stack 7, 8, 9 (7 on top) gives 9, 7, 8, 9. *)
Lemma DuplicateStackValue_copies_kth_witness :
  DuplicateStackValue 3 (set_stack (loaded [kDup3]) [7; 8; 9])
  = Return (set_stack (set_stack (loaded [kDup3]) [7; 8; 9]) [9; 7; 8; 9]).
Proof.
  apply (DuplicateStackValue_copies_kth 3 (set_stack (loaded [kDup3]) [7; 8; 9]) 9).
  - cbn. auto.
  - cbn. lia.
  - reflexivity.
  - vm_compute. reflexivity.
Defined.

Example dup2_run :
  halted_at (Interpret 4 (loaded (hex [0x60; 0x01; 0x60; 0x02; 0x81])))
  = Some (5, [1; 2; 1]).
Proof. vm_compute. reflexivity. Qed.

End Dup.

(** ** The stack bound *)

Section StackBound.

Lemma span_of_length {A : Type} (c : list A) (from count : Z) (l : list A) :
  span_of c from count = Some l -> (length l <= Z.to_nat count)%nat.
Proof.
  unfold span_of. destruct (_ <=? _); [|discriminate].
  intros [= <-]. rewrite length_firstn. lia.
Qed.

(** A PUSHn whose behaviour is defined pushes one word and then checks the
    size. *)
Lemma PushToStack_defined (n : Z) (ec : ExecutionContext) :
  0 <= n <= 32 ->
  PushToStack n ec <> Undefined ->
  exists w,
    PushToStack n ec =
    if stack_size ec <? kMaxStackSize
    then Return (set_stack ec (w :: stack ec))
    else ThrowRuntimeError "PUSHn" kStackOverflow (set_stack ec (w :: stack ec)).
Proof.
  intros Hn Hdef. destruct (Z.eq_dec n 0) as [-> | Hnz].
  - exists (be_value []). apply PushToStack_item. left. split; reflexivity.
  - destruct (span_of (bytecode ec) (size_add (program_counter ec) 1) n)
      as [bs|] eqn:Hspan.
    + exists (be_value bs). apply PushToStack_item. right.
      split; [exact Hnz|]. split; [exact Hspan|].
      apply span_of_length in Hspan. lia.
    + exfalso. apply Hdef. unfold PushToStack.
      destruct (Z.eqb_spec n 0); [contradiction|]. rewrite Hspan. reflexivity.
Qed.

(** A DUPk whose behaviour is defined does the same. *)
Lemma DuplicateStackValue_defined (k : nat) (ec : ExecutionContext) :
  (1 <= k)%nat ->
  DuplicateStackValue k ec <> Undefined ->
  exists w,
    DuplicateStackValue k ec =
    if stack_size ec <? kMaxStackSize
    then Return (set_stack ec (w :: stack ec))
    else ThrowRuntimeError "DUPn" kStackOverflow (set_stack ec (w :: stack ec)).
Proof.
  intros Hk Hdef.
  destruct (Nat.ltb_spec (length (stack ec)) k) as [Hshort | Hdeep].
  - exfalso. apply Hdef, DuplicateStackValue_short, Hshort.
  - destruct (nth_error (stack ec) (k - 1)) as [x|] eqn:Hx.
    + exists x. apply DuplicateStackValue_deep; assumption.
    + apply nth_error_None in Hx. lia.
Qed.

(** The 1025th word is pushed without a fault, and the push that does
    fault has left its word on the stack.  A run of 1025 PUSH0 halts with
    1025 words.  With 8192 words on the stack, as after 8192 PUSH0, the
    next PUSH0 aborts the run, and the context it leaves holds 8193. *)
Lemma stack_bound_counterexample :
  halted_at (Interpret 1026 (loaded (repeat kPush0 (Z.to_nat 1025))))
  = Some (1025, repeat 0 (Z.to_nat 1025)) /\
  aborted_at
    (Interpret_step
       (mkExecutionContext 8192 (repeat kPush0 (Z.to_nat 8193))
          (repeat 0 (Z.to_nat 8192)) fresh_memory))
  = Some (Revert "PUSHn" kStackOverflow, 8192, repeat 0 (Z.to_nat 8193)).
Proof. split; vm_compute; reflexivity. Qed.

(** What a PUSHn or DUPk with its operands does: one word is pushed, then
    the size is compared with [kMaxStackSize]. *)
Lemma push_handler_shape
    (opcode : opcode_t) (handler : ExecutionContext -> outcome)
    (ec : ExecutionContext) :
  In opcode [kPush0; kPush1; kPush2; kPush12; kDup2; kDup3] ->
  map_at kOpcodeHandlers opcode = Some handler ->
  handler ec <> Undefined ->
  exists w who,
    handler ec =
    if stack_size ec <? kMaxStackSize
    then Return (set_stack ec (w :: stack ec))
    else ThrowRuntimeError who kStackOverflow (set_stack ec (w :: stack ec)).
Proof.
  intros Hop Hh Hdef. cbn [In] in Hop.
  destruct Hop as [<- | [<- | [<- | [<- | [<- | [<- | []]]]]]];
    cbn in Hh; injection Hh as <-.
  - destruct (PushToStack_defined 0 ec) as [w Hw]; [lia | exact Hdef | eauto].
  - destruct (PushToStack_defined 1 ec) as [w Hw]; [lia | exact Hdef | eauto].
  - destruct (PushToStack_defined 2 ec) as [w Hw]; [lia | exact Hdef | eauto].
  - destruct (PushToStack_defined 12 ec) as [w Hw]; [lia | exact Hdef | eauto].
  - destruct (DuplicateStackValue_defined 2 ec) as [w Hw]; [lia | exact Hdef | eauto].
  - destruct (DuplicateStackValue_defined 3 ec) as [w Hw]; [lia | exact Hdef | eauto].
Qed.

(** 1024 pushes in a row: the run halts with 1024 words. *)
Example push_1024_run :
  halted_at (Interpret 1025 (loaded (repeat kPush0 (Z.to_nat 1024))))
  = Some (1024, repeat 0 (Z.to_nat 1024)).
Proof. vm_compute. reflexivity. Qed.

End StackBound.

(** ** Stack underflow *)

Section Underflow.

(** The five handlers that compare the stack size with their operand
    count throw StackUnderflow before they touch the context. *)
Lemma checked_handlers_underflow (ec : ExecutionContext) :
  (stack_size ec < 2 ->
   SwapStackValues ec = ThrowRuntimeError "SWAPn" kStackUnderflow ec /\
   ShiftLeft ec = ThrowRuntimeError "SHL" kStackUnderflow ec /\
   StoreToMemory ec = ThrowRuntimeError "MSTORE" kStackUnderflow ec) /\
  (stack_size ec < 1 ->
   Jump ec = ThrowRuntimeError "JUMP" kStackUnderflow ec /\
   LoadFromMemory ec = ThrowRuntimeError "MLOAD" kStackUnderflow ec).
Proof.
  unfold SwapStackValues, ShiftLeft, StoreToMemory, Jump, LoadFromMemory.
  split; intros H.
  - destruct (Z.ltb_spec (stack_size ec) 2); [repeat split | lia].
  - destruct (Z.ltb_spec (stack_size ec) 1); [repeat split | lia].
Qed.

(** Through the dispatch loop: SWAP1 on a one-word stack aborts the run
    and leaves the word where it was. *)
Example swap1_underflow_run :
  aborted_at (Interpret 3 (loaded (hex [0x5f; 0x90])))
  = Some (Revert "SWAPn" kStackUnderflow, 1, [0]).
Proof. vm_compute. reflexivity. Qed.

(** C2 fails for DUPk.  [DuplicateStackValue] has no size check: DUP2 on
    the empty stack of a fresh interpreter calls [top] on an empty
    [std::stack], which has no defined behaviour, and the same holds for
    DUP3 on a two-word stack.  No StackUnderflow is thrown. *)
Theorem DuplicateStackValue_no_underflow_check :
  DuplicateStackValue 2 (loaded [kDup2]) = Undefined /\
  Interpret_step (loaded [kDup2]) = Crashed /\
  DuplicateStackValue 3 (set_stack (loaded [kDup3]) [1; 2]) = Undefined /\
  Interpret 3 (loaded [kPush0; kDup2]) = Crashed.
Proof. repeat split; vm_compute; reflexivity. Qed.

End Underflow.

(** ** SHL *)

Section Shl.

(** The library's shift agrees with multiplication by a power of two
    modulo 2^256. *)
Lemma intx_shl_shl_mod (value shift : Z) :
  is_word value -> is_word shift -> intx.shl value shift = shl_mod value shift.
Proof.
  intros Hv Hs. unfold intx.shl, intx.shl64, shl_mod, intx.wrap, intx.num_bits.
  assert (Hzero : 256 <= shift -> (value * 2 ^ shift) mod 2 ^ 256 = 0).
  { intros Hge. replace shift with ((shift - 256) + 256) by lia.
    rewrite Z.pow_add_r, Z.mul_assoc by lia. apply Z.mod_mul. lia. }
  rewrite Z.shiftr_div_pow2 by lia.
  destruct (Z.eqb_spec (shift / 2 ^ 64) 0) as [Hlow | Hhigh]; cbn [negb].
  - assert (Hlt : shift < 2 ^ 64).
    { apply Z.div_small_iff in Hlow; lia. }
    rewrite Z.land_ones, Z.mod_small by (unfold is_word in Hs; lia).
    destruct (Z.leb_spec 256 shift) as [Hge | Hsmall].
    + symmetry. apply Hzero, Hge.
    + rewrite Z.shiftl_mul_pow2 by (unfold is_word in Hs; lia). reflexivity.
  - symmetry. apply Hzero.
    destruct (Z.lt_ge_cases shift (2 ^ 64)) as [Hlt | Hge]; [|lia].
    exfalso. apply Hhigh, Z.div_small. unfold is_word in Hs. lia.
Qed.

Lemma shl_mod_0 (value : Z) : is_word value -> shl_mod value 0 = value.
Proof.
  intros Hv. unfold shl_mod. rewrite Z.pow_0_r, Z.mul_1_r.
  apply Z.mod_small, Hv.
Qed.

Lemma shl_mod_ge_256 (value shift : Z) : 256 <= shift -> shl_mod value shift = 0.
Proof.
  intros Hge. unfold shl_mod. replace shift with ((shift - 256) + 256) by lia.
  rewrite Z.pow_add_r, Z.mul_assoc by lia. apply Z.mod_mul. lia.
Qed.

(** C7.  SHL on a stack [shift, value, ...] (shift on top) replaces the two
    words with [value * 2^shift mod 2^256]: the first word popped is the
    shift, the second the value.  A shift of 0 gives back the value and a
    shift of 256 or more gives the zero word. *)
Theorem ShiftLeft_shifts_modulo
    (ec : ExecutionContext) (shift value : word_t) (rest : list word_t) :
  stack ec = shift :: value :: rest ->
  is_word shift -> is_word value ->
  ShiftLeft ec = Return (set_stack ec (shl_mod value shift :: rest)) /\
  (shift = 0 -> ShiftLeft ec = Return (set_stack ec (value :: rest))) /\
  (256 <= shift -> ShiftLeft ec = Return (set_stack ec (0 :: rest))).
Proof.
  intros Hst Hs Hv.
  assert (Hrun : ShiftLeft ec = Return (set_stack ec (shl_mod value shift :: rest))).
  { unfold ShiftLeft, stack_size. rewrite Hst. cbn [length].
    destruct (Z.ltb_spec (Z.of_nat (S (S (length rest)))) 2); [lia|].
    rewrite intx_shl_shl_mod by assumption. reflexivity. }
  split; [exact Hrun|]. split.
  - intros ->. rewrite Hrun, shl_mod_0 by exact Hv. reflexivity.
  - intros Hge. rewrite Hrun, shl_mod_ge_256 by exact Hge. reflexivity.
Qed.

(** 3 shifted left by 255 keeps only its lowest bit, at position 255. *)
Lemma ShiftLeft_shifts_modulo_witness :
  ShiftLeft (set_stack (loaded [kShl]) [255; 3])
  = Return (set_stack (set_stack (loaded [kShl]) [255; 3]) [2 ^ 255]).
Proof.
  apply (ShiftLeft_shifts_modulo (set_stack (loaded [kShl]) [255; 3]) 255 3 []).
  - reflexivity.
  - unfold is_word. lia.
  - unfold is_word. lia.
Defined.

Example shl_run :
  halted_at (Interpret 5 (loaded (hex [0x60; 0x05; 0x60; 0x04; 0x1b]))) = Some (5, [80]).
Proof. vm_compute. reflexivity. Qed.

End Shl.

(** ** The dispatch tables *)

Section Tables.

Lemma map_at_Some_In {V : Type} (m : list (opcode_t * V)) (k : opcode_t) (v : V) :
  map_at m k = Some v -> In (k, v) m.
Proof.
  induction m as [| [k' v'] rest IH]; cbn [map_at]; [discriminate|].
  destruct (Byte.eqb k' k) eqn:E.
  - intros [= <-]. apply Byte.byte_dec_bl in E. subst. left. reflexivity.
  - intros H. right. apply IH, H.
Qed.

Lemma map_at_None_iff {V : Type} (m : list (opcode_t * V)) (k : opcode_t) :
  map_at m k = None <-> ~ In k (map fst m).
Proof.
  induction m as [| [k' v'] rest IH]; cbn [map_at map fst In]; [tauto|].
  destruct (Byte.eqb k' k) eqn:E.
  - apply Byte.byte_dec_bl in E. split; [discriminate | tauto].
  - apply Byte.eqb_false in E. rewrite IH. tauto.
Qed.

(** The metadata table and the handler table have the same eleven keys. *)
Lemma tables_same_keys (k : opcode_t) :
  In k (map fst kOpcodeInfo) <-> In k (map fst kOpcodeHandlers).
Proof. cbn. tauto. Qed.

Lemma no_info_no_handler (k : opcode_t) :
  map_at kOpcodeInfo k = None <-> map_at kOpcodeHandlers k = None.
Proof. rewrite !map_at_None_iff, tables_same_keys. tauto. Qed.

Lemma handler_has_info (k : opcode_t) (handler : ExecutionContext -> outcome) :
  map_at kOpcodeHandlers k = Some handler ->
  exists info, map_at kOpcodeInfo k = Some info /\ 0 <= advance_by info <= 12.
Proof.
  intros Hh. destruct (map_at kOpcodeInfo k) as [info|] eqn:Hi.
  - exists info. split; [reflexivity|].
    apply map_at_Some_In in Hi. cbn in Hi.
    repeat (destruct Hi as [[= <- <-] | Hi]; [cbn; lia|]). destruct Hi.
  - apply no_info_no_handler in Hi. congruence.
Qed.

Lemma JumpDest_not_in_tables :
  map_at kOpcodeInfo kJumpDest = None /\ map_at kOpcodeHandlers kJumpDest = None.
Proof. split; reflexivity. Qed.

End Tables.

(** ** What a returning handler leaves of the program counter *)

Section HandlerFrames.

Lemma Jump_return (ec ec1 : ExecutionContext) :
  Jump ec = Return ec1 ->
  exists counter rest,
    stack ec = counter :: rest /\
    ec1 = set_program_counter (set_stack ec rest) (intx.to_size_t counter) /\
    nth_error (bytecode ec) (Z.to_nat (intx.to_size_t counter)) = Some kJumpDest.
Proof.
  unfold Jump. destruct (stack_size ec <? 1); [discriminate|].
  destruct (stack ec) as [| counter rest]; [discriminate|].
  cbn [bytecode program_counter set_program_counter set_stack].
  destruct (nth_error (bytecode ec) (Z.to_nat (intx.to_size_t counter)))
    as [b|] eqn:Hb; [|discriminate].
  destruct (Byte.eqb b kJumpDest) eqn:E; cbn [negb]; [|discriminate].
  intros [= <-]. apply Byte.byte_dec_bl in E. subst b.
  exists counter, rest. repeat split. exact Hb.
Qed.

Lemma to_size_t_range (x : Z) : 0 <= intx.to_size_t x < 2 ^ 64.
Proof. unfold intx.to_size_t. apply Z.mod_pos_bound. lia. Qed.

Lemma nth_error_Some_lt {A : Type} (l : list A) (i : Z) (x : A) :
  nth_error l (Z.to_nat i) = Some x -> i < Z.of_nat (length l).
Proof.
  intros H. assert (Z.to_nat i < length l)%nat by (apply nth_error_Some; congruence).
  lia.
Qed.

(** Every handler but [Jump] returns the program counter it was given, and
    none changes the bytecode. *)
Lemma handler_return_frame
    (opcode : opcode_t) (handler : ExecutionContext -> outcome)
    (ec ec1 : ExecutionContext) :
  map_at kOpcodeHandlers opcode = Some handler ->
  handler ec = Return ec1 ->
  bytecode ec1 = bytecode ec /\
  (opcode <> kJump -> program_counter ec1 = program_counter ec) /\
  (opcode = kJump ->
   0 <= program_counter ec1 < Z.of_nat (length (bytecode ec))).
Proof.
  intros Hh Hrun. apply map_at_Some_In in Hh. cbn [In kOpcodeHandlers] in Hh.
  destruct Hh as [Hh | Hh].
  { injection Hh as <- <-. destruct (Jump_return ec ec1 Hrun)
      as (counter & rest & _ & -> & Hdest).
    cbn [bytecode program_counter set_program_counter set_stack].
    split; [reflexivity|]. split; [congruence|]. intros _.
    pose proof (to_size_t_range counter).
    apply nth_error_Some_lt in Hdest. lia. }
  assert (Hframe : bytecode ec1 = bytecode ec /\
                   program_counter ec1 = program_counter ec).
  { repeat (destruct Hh as [Hh | Hh]; [injection Hh as <- <-|]); try destruct Hh.
    all: revert Hrun.
    all: try (unfold PushToStack; break_match; try discriminate;
              intros [= <-]; split; reflexivity).
    all: try (unfold DuplicateStackValue; break_match; try discriminate;
              intros [= <-]; split; reflexivity).
    all: unfold LoadFromMemory, ShiftLeft, StoreToMemory, SwapStackValues;
      break_match; try discriminate; intros [= <-]; split; reflexivity. }
  destruct Hframe as [Hb Hp]. split; [exact Hb|]. split; [intros _; exact Hp|].
  intros ->. exfalso.
  repeat (destruct Hh as [Hh | Hh]; [discriminate Hh|]). destruct Hh.
Qed.

End HandlerFrames.

(** ** The dispatch loop *)

Section Dispatch.

(** A context whose program counter points at a byte of the bytecode. *)
Section Fetched.

Variable ec : ExecutionContext.
Variable opcode : opcode_t.
Hypothesis fetched :
  nth_error (bytecode ec) (Z.to_nat (program_counter ec)) = Some opcode.

Lemma fetch_inside :
  (program_counter ec <? Z.of_nat (length (bytecode ec))) = true.
Proof. apply Z.ltb_lt. eapply nth_error_Some_lt, fetched. Qed.

Lemma Interpret_step_unrecognized :
  map_at kOpcodeHandlers opcode = None ->
  Interpret_step ec = Aborted (UnrecognizedOpcode opcode) ec.
Proof.
  intros Hh. unfold Interpret_step.
  rewrite fetch_inside, fetched, Hh. reflexivity.
Qed.

Lemma Interpret_step_throw
    (ec1 : ExecutionContext) (handler : ExecutionContext -> outcome)
    (who : string) (e : RevertError) :
  map_at kOpcodeHandlers opcode = Some handler ->
  handler ec = ThrowRuntimeError who e ec1 ->
  Interpret_step ec = Aborted (Revert who e) ec1.
Proof.
  intros Hh Hrun. unfold Interpret_step.
  rewrite fetch_inside, fetched, Hh, Hrun. reflexivity.
Qed.

Lemma Interpret_step_undefined (handler : ExecutionContext -> outcome) :
  map_at kOpcodeHandlers opcode = Some handler ->
  handler ec = Undefined ->
  Interpret_step ec = Crashed.
Proof.
  intros Hh Hrun. unfold Interpret_step.
  rewrite fetch_inside, fetched, Hh, Hrun. reflexivity.
Qed.

Lemma Interpret_step_return
    (ec1 : ExecutionContext) (handler : ExecutionContext -> outcome) :
  0 <= program_counter ec ->
  Z.of_nat (length (bytecode ec)) < 2 ^ 63 ->
  map_at kOpcodeHandlers opcode = Some handler ->
  handler ec = Return ec1 ->
  exists info,
    map_at kOpcodeInfo opcode = Some info /\
    Interpret_step ec
    = Running (set_program_counter ec1
                 (program_counter ec1 + 1 + advance_by info)).
Proof.
  intros Hpc Hfit Hh Hrun.
  destruct (handler_has_info opcode handler Hh) as (info & Hi & Hadv).
  exists info. split; [exact Hi|].
  destruct (handler_return_frame opcode handler ec ec1 Hh Hrun)
    as (_ & Hsame & Hjump).
  assert (Hpc1 : 0 <= program_counter ec1 < Z.of_nat (length (bytecode ec))).
  { destruct (Byte.byte_eq_dec opcode kJump) as [E | E].
    - apply Hjump, E.
    - rewrite (Hsame E). split; [exact Hpc|]. eapply nth_error_Some_lt, fetched. }
  unfold Interpret_step.
  rewrite fetch_inside, fetched, Hh, Hrun, Hi.
  cbn [program_counter set_program_counter bytecode stack memory].
  unfold size_add. rewrite (Z.mod_small (program_counter ec1 + 1)) by lia.
  rewrite Z.mod_small by lia. reflexivity.
Qed.

(** C8.  When the byte fetched at the program counter has no entry in the
    metadata table (equivalently, none in the handler table), the loop
    body throws at the table lookup, the [std::out_of_range] clause
    reports that byte as unrecognized and returns: the run is aborted with
    [UnrecognizedOpcode] for that byte, and the context is the one the
    step started from. *)
Theorem missing_entry_aborts_unrecognized (fuel : nat) :
  map_at kOpcodeInfo opcode = None ->
  map_at kOpcodeHandlers opcode = None /\
  Interpret_step ec = Aborted (UnrecognizedOpcode opcode) ec /\
  Interpret (S fuel) ec = Aborted (UnrecognizedOpcode opcode) ec.
Proof.
  intros Hi. apply no_info_no_handler in Hi.
  pose proof (Interpret_step_unrecognized Hi) as Hstep.
  split; [exact Hi|]. split; [exact Hstep|].
  cbn [Interpret]. rewrite Hstep. reflexivity.
Qed.

End Fetched.

(** The one-byte bytecode 00 aborts at offset 0. *)
Lemma missing_entry_aborts_unrecognized_witness :
  Interpret 1 (loaded [Byte.x00])
  = Aborted (UnrecognizedOpcode Byte.x00) (loaded [Byte.x00]) /\
  program_counter (loaded [Byte.x00]) = 0.
Proof.
  split; [|reflexivity].
  apply (missing_entry_aborts_unrecognized (loaded [Byte.x00]) Byte.x00).
  - reflexivity.
  - reflexivity.
Defined.

Lemma Interpret_step_halted (ec : ExecutionContext) :
  Z.of_nat (length (bytecode ec)) <= program_counter ec ->
  Interpret_step ec = Halted ec.
Proof.
  intros H. unfold Interpret_step.
  destruct (Z.ltb_spec (program_counter ec) (Z.of_nat (length (bytecode ec))));
    [lia | reflexivity].
Qed.

Lemma Interpret_step_not_halted (ec ec' : ExecutionContext) :
  program_counter ec < Z.of_nat (length (bytecode ec)) ->
  Interpret_step ec <> Halted ec'.
Proof.
  intros H. unfold Interpret_step.
  destruct (Z.ltb_spec (program_counter ec) (Z.of_nat (length (bytecode ec))));
    [|lia].
  break_match; discriminate.
Qed.

End Dispatch.

(** ** Program counter and halting *)

Section Advance.

(** Every step that goes on has fetched an opcode whose handler
    returned. *)
Lemma Interpret_step_running_inv (ec ec' : ExecutionContext) :
  0 <= program_counter ec ->
  Z.of_nat (length (bytecode ec)) < 2 ^ 63 ->
  Interpret_step ec = Running ec' ->
  exists opcode handler ec1 info,
    nth_error (bytecode ec) (Z.to_nat (program_counter ec)) = Some opcode /\
    map_at kOpcodeHandlers opcode = Some handler /\
    handler ec = Return ec1 /\
    map_at kOpcodeInfo opcode = Some info /\
    ec' = set_program_counter ec1
            (program_counter ec1 + 1 + advance_by info).
Proof.
  intros Hpc Hfit Hstep.
  destruct (nth_error (bytecode ec) (Z.to_nat (program_counter ec)))
    as [opcode|] eqn:Hf.
  - destruct (map_at kOpcodeHandlers opcode) as [handler|] eqn:Hh.
    + destruct (handler ec) as [ec1 | who e ec1 | ec1 | ec1 |] eqn:Hrun.
      * destruct (Interpret_step_return ec opcode Hf ec1 handler Hpc Hfit Hh Hrun)
          as (info & Hi & Hs).
        exists opcode, handler, ec1, info. repeat split; try assumption.
        congruence.
      * rewrite (Interpret_step_throw ec opcode Hf ec1 handler who e Hh Hrun)
          in Hstep. discriminate.
      * unfold Interpret_step in Hstep.
        rewrite (fetch_inside ec opcode Hf), Hf, Hh, Hrun in Hstep. discriminate.
      * unfold Interpret_step in Hstep.
        rewrite (fetch_inside ec opcode Hf), Hf, Hh, Hrun in Hstep. discriminate.
      * unfold Interpret_step in Hstep.
        rewrite (fetch_inside ec opcode Hf), Hf, Hh, Hrun in Hstep. discriminate.
    + rewrite (Interpret_step_unrecognized ec opcode Hf Hh) in Hstep. discriminate.
  - unfold Interpret_step in Hstep. rewrite Hf in Hstep.
    destruct (_ <? _); discriminate.
Qed.



End Advance.

(** ** JUMP and JUMPDEST *)

Section Jumps.

Lemma firstn_1_skipn {A : Type} (l : list A) (i : nat) (x : A) :
  nth_error l i = Some x -> firstn 1 (skipn i l) = [x].
Proof.
  revert l. induction i as [| j IH]; intros [| y l] H; try discriminate.
  - injection H as ->. reflexivity.
  - cbn [skipn]. apply IH, H.
Qed.

(** JUMP with a word on the stack and a byte at the target. *)
Lemma Jump_at_target
    (ec : ExecutionContext) (counter : word_t) (rest : list word_t) (b : byte) :
  stack ec = counter :: rest ->
  nth_error (bytecode ec) (Z.to_nat (intx.to_size_t counter)) = Some b ->
  Jump ec =
  if Byte.eqb b kJumpDest
  then Return (set_program_counter (set_stack ec rest) (intx.to_size_t counter))
  else ThrowRuntimeError "JUMP" kInvalidJump
         (set_program_counter (set_stack ec rest) (intx.to_size_t counter)).
Proof.
  intros Hst Hb. unfold Jump, stack_size. rewrite Hst. cbn [length].
  destruct (Z.ltb_spec (Z.of_nat (S (length rest))) 1); [lia|].
  cbn [bytecode program_counter set_program_counter set_stack].
  rewrite Hb. destruct (Byte.eqb b kJumpDest); reflexivity.
Qed.

Lemma Jump_beyond_bytecode
    (ec : ExecutionContext) (counter : word_t) (rest : list word_t) :
  stack ec = counter :: rest ->
  Z.of_nat (length (bytecode ec)) <= intx.to_size_t counter ->
  Jump ec = ThrowOutOfRange
              (set_program_counter (set_stack ec rest) (intx.to_size_t counter)).
Proof.
  intros Hst Hout. unfold Jump, stack_size. rewrite Hst. cbn [length].
  destruct (Z.ltb_spec (Z.of_nat (S (length rest))) 1); [lia|].
  cbn [bytecode program_counter set_program_counter set_stack].
  replace (nth_error (bytecode ec) (Z.to_nat (intx.to_size_t counter)))
    with (@None byte); [reflexivity|].
  symmetry. apply nth_error_None. lia.
Qed.

(** One PUSH1 step. *)
Lemma Interpret_step_push1 (ec : ExecutionContext) (k : byte) :
  0 <= program_counter ec ->
  Z.of_nat (length (bytecode ec)) < 2 ^ 63 ->
  stack_size ec < kMaxStackSize ->
  nth_error (bytecode ec) (Z.to_nat (program_counter ec)) = Some kPush1 ->
  nth_error (bytecode ec) (Z.to_nat (program_counter ec + 1)) = Some k ->
  Interpret_step ec
  = Running (set_program_counter
               (set_stack ec (byte.unsigned k :: stack ec))
               (program_counter ec + 2)).
Proof.
  intros Hpc Hfit Hsz Hop Himm.
  assert (Hin : program_counter ec + 1 < Z.of_nat (length (bytecode ec)))
    by (eapply nth_error_Some_lt, Himm).
  assert (Hret : PushToStack 1 ec
                 = Return (set_stack ec (byte.unsigned k :: stack ec))).
  { rewrite (PushToStack_item 1 ec [k]).
    - destruct (Z.ltb_spec (stack_size ec) kMaxStackSize); [|lia].
      replace (be_value [k]) with (byte.unsigned k) by (cbn; lia). reflexivity.
    - right. split; [lia|]. split; [|cbn; lia].
      unfold size_add. rewrite Z.mod_small by lia.
      destruct (span_of_some (bytecode ec) (program_counter ec + 1) 1)
        as (l & Hl & Heq & _); try lia.
      rewrite Hl, Heq. change (Z.to_nat 1) with 1%nat.
      rewrite (firstn_1_skipn _ _ _ Himm). reflexivity. }
  destruct (Interpret_step_return ec kPush1 Hop _ (PushToStack 1) Hpc Hfit
              eq_refl Hret) as (info & Hi & Hstep).
  cbn in Hi. injection Hi as <-. rewrite Hstep.
  cbn [program_counter set_stack advance_by]. do 2 f_equal. lia.
Qed.

(** JUMP when the bytecode has a byte at the target.  JUMP on a non-empty
    stack pops the top word and sets the program counter to it, read as a
    [std::size_t].  With a byte [b] of the bytecode at that offset: if [b]
    is not JUMPDEST the handler throws InvalidJump and the run is aborted
    with that fault; if it is, the handler returns and the loop goes on at
    the offset plus one.  So PUSH1 k followed by JUMP, where the byte at
    offset k is JUMPDEST, leaves the loop about to fetch at k + 1 with the
    stack as it was, and where that byte is anything else the run is
    aborted with InvalidJump. *)
Theorem Jump_resumes_after_JumpDest :
  (forall (ec : ExecutionContext) (counter : word_t) (rest : list word_t) (b : byte),
      stack ec = counter :: rest ->
      nth_error (bytecode ec) (Z.to_nat (intx.to_size_t counter)) = Some b ->
      let target := intx.to_size_t counter in
      let ec' := set_program_counter (set_stack ec rest) target in
      (b <> kJumpDest -> Jump ec = ThrowRuntimeError "JUMP" kInvalidJump ec') /\
      (b = kJumpDest -> Jump ec = Return ec') /\
      (0 <= program_counter ec ->
       Z.of_nat (length (bytecode ec)) < 2 ^ 63 ->
       nth_error (bytecode ec) (Z.to_nat (program_counter ec)) = Some kJump ->
       (b <> kJumpDest ->
        Interpret_step ec = Aborted (Revert "JUMP" kInvalidJump) ec') /\
       (b = kJumpDest ->
        Interpret_step ec = Running (set_program_counter ec' (target + 1))))) /\
  (forall (ec : ExecutionContext) (k b : byte),
      0 <= program_counter ec ->
      Z.of_nat (length (bytecode ec)) < 2 ^ 63 ->
      stack_size ec < kMaxStackSize ->
      nth_error (bytecode ec) (Z.to_nat (program_counter ec)) = Some kPush1 ->
      nth_error (bytecode ec) (Z.to_nat (program_counter ec + 1)) = Some k ->
      nth_error (bytecode ec) (Z.to_nat (program_counter ec + 2)) = Some kJump ->
      nth_error (bytecode ec) (Z.to_nat (byte.unsigned k)) = Some b ->
      (b = kJumpDest ->
       Interpret 2 ec = Running (set_program_counter ec (byte.unsigned k + 1))) /\
      (b <> kJumpDest ->
       Interpret 2 ec
       = Aborted (Revert "JUMP" kInvalidJump)
           (set_program_counter ec (byte.unsigned k)))).
Proof.
  assert (Hone : forall ec counter rest b,
      stack ec = counter :: rest ->
      nth_error (bytecode ec) (Z.to_nat (intx.to_size_t counter)) = Some b ->
      let target := intx.to_size_t counter in
      let ec' := set_program_counter (set_stack ec rest) target in
      (b <> kJumpDest -> Jump ec = ThrowRuntimeError "JUMP" kInvalidJump ec') /\
      (b = kJumpDest -> Jump ec = Return ec') /\
      (0 <= program_counter ec ->
       Z.of_nat (length (bytecode ec)) < 2 ^ 63 ->
       nth_error (bytecode ec) (Z.to_nat (program_counter ec)) = Some kJump ->
       (b <> kJumpDest ->
        Interpret_step ec = Aborted (Revert "JUMP" kInvalidJump) ec') /\
       (b = kJumpDest ->
        Interpret_step ec = Running (set_program_counter ec' (target + 1))))).
  { intros ec counter rest b Hst Hb target ec'.
    pose proof (Jump_at_target ec counter rest b Hst Hb) as Hrun.
    fold target in Hrun. fold ec' in Hrun.
    assert (Hbad : b <> kJumpDest ->
                   Jump ec = ThrowRuntimeError "JUMP" kInvalidJump ec').
    { intros Hne. rewrite Hrun. destruct (Byte.eqb b kJumpDest) eqn:E;
        [apply Byte.byte_dec_bl in E; contradiction | reflexivity]. }
    assert (Hgood : b = kJumpDest -> Jump ec = Return ec').
    { intros ->. rewrite Hrun. reflexivity. }
    split; [exact Hbad|]. split; [exact Hgood|].
    intros Hpc Hfit Hop. split.
    - intros Hne.
      exact (Interpret_step_throw ec kJump Hop ec' Jump _ _ eq_refl (Hbad Hne)).
    - intros Heq.
      destruct (Interpret_step_return ec kJump Hop ec' Jump Hpc Hfit eq_refl
                  (Hgood Heq)) as (info & Hi & Hstep).
      cbn in Hi. injection Hi as <-. rewrite Hstep.
      subst ec'. cbn [program_counter set_program_counter advance_by].
      do 2 f_equal. lia. }
  split; [exact Hone|].
  intros ec k b Hpc Hfit Hsz Hop Himm Hjump Hb.
  pose proof (Interpret_step_push1 ec k Hpc Hfit Hsz Hop Himm) as Hstep1.
  set (ec1 := set_program_counter (set_stack ec (byte.unsigned k :: stack ec))
                (program_counter ec + 2)) in *.
  assert (Hk : intx.to_size_t (byte.unsigned k) = byte.unsigned k).
  { unfold intx.to_size_t. pose proof (byte.unsigned_range k).
    apply Z.mod_small. lia. }
  destruct (Hone ec1 (byte.unsigned k) (stack ec) b) as (_ & _ & Hloop).
  { reflexivity. }
  { rewrite Hk. exact Hb. }
  destruct Hloop as [Hbad Hgood].
  { cbn. lia. }
  { exact Hfit. }
  { exact Hjump. }
  rewrite Hk in Hbad, Hgood.
  cbn [Interpret]. rewrite Hstep1. split.
  - intros Heq. rewrite (Hgood Heq). reflexivity.
  - intros Hne. rewrite (Hbad Hne). reflexivity.
Qed.

End Jumps.

Section JumpExamples.

(** PUSH1 4, JUMP with JUMPDEST at offset 4 goes on at offset 5; PUSH1 3,
    JUMP over the same bytes, where offset 3 holds 00, is an invalid
    jump; JUMP alone, with 4 on the stack, returns with the counter at 4. *)
Lemma Jump_resumes_after_JumpDest_witness :
  Interpret 2 (loaded (hex [0x60; 0x04; 0x56; 0x00; 0x5b]))
  = Running (set_program_counter (loaded (hex [0x60; 0x04; 0x56; 0x00; 0x5b])) 5) /\
  Interpret 2 (loaded (hex [0x60; 0x03; 0x56; 0x00; 0x5b]))
  = Aborted (Revert "JUMP" kInvalidJump)
      (set_program_counter (loaded (hex [0x60; 0x03; 0x56; 0x00; 0x5b])) 3) /\
  Jump (set_stack (loaded (hex [0x56; 0x00; 0x00; 0x00; 0x5b])) [4])
  = Return (set_program_counter (loaded (hex [0x56; 0x00; 0x00; 0x00; 0x5b])) 4).
Proof.
  destruct Jump_resumes_after_JumpDest as [Hone Hseq].
  split; [|split].
  - apply (Hseq (loaded (hex [0x60; 0x04; 0x56; 0x00; 0x5b])) Byte.x04 Byte.x5b);
      try reflexivity; cbn; lia.
  - apply (Hseq (loaded (hex [0x60; 0x03; 0x56; 0x00; 0x5b])) Byte.x03 Byte.x00);
      try reflexivity; try discriminate; cbn; lia.
  - apply (Hone (set_stack (loaded (hex [0x56; 0x00; 0x00; 0x00; 0x5b])) [4])
             4 [] Byte.x5b); reflexivity.
Defined.

(** A target outside the bytecode: [at] throws [std::out_of_range], which
    the loop reports as an unrecognized opcode, naming the JUMP byte. *)
Example jump_outside_run :
  aborted_at (Interpret 2 (loaded (hex [0x60; 0x09; 0x56])))
  = Some (UnrecognizedOpcode kJump, 9, []).
Proof. vm_compute. reflexivity. Qed.

(** C3 fails when the popped target lies outside the bytecode.  In the
    three-byte bytecode PUSH1 9, JUMP no byte at offset 9 is JUMPDEST, so
    the jump is invalid; but [Jump] reads the target with
    [bytecode.at(program_counter)], which throws [std::out_of_range], and
    the clause of [Interpret] that catches it belongs to the table lookup:
    the run is aborted as an unrecognized opcode 0x56, the byte of JUMP
    itself, which has a handler.  No InvalidJump is raised; the target word
    has been popped and the program counter is 9. *)
Theorem Jump_outside_bytecode_misreported :
  Jump (mkExecutionContext 2 (hex [0x60; 0x09; 0x56]) [9] fresh_memory)
  = ThrowOutOfRange
      (mkExecutionContext 9 (hex [0x60; 0x09; 0x56]) [] fresh_memory) /\
  Interpret 2 (loaded (hex [0x60; 0x09; 0x56]))
  = Aborted (UnrecognizedOpcode kJump)
      (mkExecutionContext 9 (hex [0x60; 0x09; 0x56]) [] fresh_memory) /\
  map_at kOpcodeHandlers kJump = Some Jump /\
  UnrecognizedOpcode kJump <> Revert "JUMP" kInvalidJump.
Proof.
  split; [reflexivity|]. split; [reflexivity|]. split; [reflexivity | discriminate].
Qed.

(** C10.  JUMPDEST is in neither table.  A step that fetches it aborts
    the run with [UnrecognizedOpcode] for that byte and leaves the context
    as it was, so no step that goes on has fetched a JUMPDEST; and a JUMP
    step that goes on has landed on a JUMPDEST at its target and fetches
    next at the target plus one. *)
Theorem JumpDest_fetch_aborts :
  (map_at kOpcodeInfo kJumpDest = None /\
   map_at kOpcodeHandlers kJumpDest = None) /\
  (forall (ec : ExecutionContext) (fuel : nat),
      nth_error (bytecode ec) (Z.to_nat (program_counter ec)) = Some kJumpDest ->
      Interpret_step ec = Aborted (UnrecognizedOpcode kJumpDest) ec /\
      Interpret (S fuel) ec = Aborted (UnrecognizedOpcode kJumpDest) ec) /\
  (forall (ec ec' : ExecutionContext),
      Interpret_step ec = Running ec' ->
      nth_error (bytecode ec) (Z.to_nat (program_counter ec)) <> Some kJumpDest) /\
  (forall (ec ec' : ExecutionContext),
      0 <= program_counter ec ->
      Z.of_nat (length (bytecode ec)) < 2 ^ 63 ->
      nth_error (bytecode ec) (Z.to_nat (program_counter ec)) = Some kJump ->
      Interpret_step ec = Running ec' ->
      exists target,
        0 <= target /\
        nth_error (bytecode ec) (Z.to_nat target) = Some kJumpDest /\
        program_counter ec' = target + 1).
Proof.
  assert (Habort : forall ec fuel,
      nth_error (bytecode ec) (Z.to_nat (program_counter ec)) = Some kJumpDest ->
      Interpret_step ec = Aborted (UnrecognizedOpcode kJumpDest) ec /\
      Interpret (S fuel) ec = Aborted (UnrecognizedOpcode kJumpDest) ec).
  { intros ec fuel Hf.
    pose proof (Interpret_step_unrecognized ec kJumpDest Hf eq_refl) as Hstep.
    split; [exact Hstep|]. cbn [Interpret]. rewrite Hstep. reflexivity. }
  split; [exact JumpDest_not_in_tables|]. split; [exact Habort|]. split.
  - intros ec ec' Hstep Hf.
    destruct (Habort ec 0%nat Hf) as [Hab _]. congruence.
  - intros ec ec' Hpc Hfit Hop Hstep.
    destruct (Interpret_step_running_inv ec ec' Hpc Hfit Hstep)
      as (opcode & handler & ec1 & info & Hf & Hh & Hrun & Hi & ->).
    rewrite Hop in Hf. injection Hf as <-.
    cbn in Hh. injection Hh as <-. cbn in Hi. injection Hi as <-.
    destruct (Jump_return ec ec1 Hrun) as (counter & rest & _ & -> & Hdest).
    exists (intx.to_size_t counter).
    split; [apply to_size_t_range|]. split; [exact Hdest|].
    cbn [program_counter set_program_counter set_stack advance_by]. lia.
Qed.

(** PUSH0 followed by JUMPDEST: the second fetch aborts the run. *)
Lemma JumpDest_fetch_aborts_witness :
  Interpret_step (set_program_counter (set_stack (loaded [kPush0; kJumpDest]) [0]) 1)
  = Aborted (UnrecognizedOpcode kJumpDest)
      (set_program_counter (set_stack (loaded [kPush0; kJumpDest]) [0]) 1) /\
  aborted_at (Interpret 2 (loaded [kPush0; kJumpDest]))
  = Some (UnrecognizedOpcode kJumpDest, 1, [0]).
Proof.
  destruct JumpDest_fetch_aborts as (_ & Habort & _).
  split.
  - apply (Habort (set_program_counter (set_stack (loaded [kPush0; kJumpDest]) [0]) 1)
             0%nat).
    reflexivity.
  - vm_compute. reflexivity.
Defined.

End JumpExamples.

(** ** MSTORE and MLOAD *)

Section Memory.

Lemma skipn_prefix {A : Type} (l1 l2 : list A) :
  skipn (length l1) (l1 ++ l2) = l2.
Proof. induction l1 as [| x l1 IH]; [reflexivity | exact IH]. Qed.

Lemma firstn_prefix {A : Type} (l1 l2 : list A) :
  firstn (length l1) (l1 ++ l2) = l1.
Proof. induction l1 as [| x l1 IH]; [reflexivity | cbn; f_equal; exact IH]. Qed.

(** Copying into a container at a position where the source fits keeps
    the length and puts the source there. *)
Lemma copy_to_inside {A : Type} (c src : list A) (at_ : Z) :
  0 <= at_ -> at_ + Z.of_nat (length src) <= Z.of_nat (length c) ->
  exists c',
    copy_to c at_ src = Some c' /\
    c' = firstn (Z.to_nat at_) c ++ src ++ skipn (Z.to_nat at_ + length src) c /\
    length c' = length c /\
    span_of c' at_ (Z.of_nat (length src)) = Some src.
Proof.
  intros Hat Hfit. unfold copy_to.
  destruct (Z.leb_spec (at_ + Z.of_nat (length src)) (Z.of_nat (length c))); [|lia].
  eexists. split; [reflexivity|]. split; [reflexivity|].
  assert (Hpre : length (firstn (Z.to_nat at_) c) = Z.to_nat at_)
    by (rewrite length_firstn; lia).
  assert (Hlen : length (firstn (Z.to_nat at_) c ++ src
                         ++ skipn (Z.to_nat at_ + length src) c) = length c).
  { rewrite !length_app, Hpre, length_skipn. lia. }
  split; [exact Hlen|].
  unfold span_of. rewrite Hlen.
  destruct (Z.leb_spec (at_ + Z.of_nat (length src)) (Z.of_nat (length c))); [|lia].
  f_equal. rewrite <- Hpre at 1. rewrite skipn_prefix, Nat2Z.id.
  apply firstn_prefix.
Qed.

Lemma StoreToMemory_stores
    (ec : ExecutionContext) (offset value : word_t) (rest : list word_t) :
  stack ec = offset :: value :: rest ->
  intx.to_size_t offset + 32 <= Z.of_nat (length (memory ec)) ->
  exists m,
    StoreToMemory ec = Return (set_memory (set_stack ec rest) m) /\
    m = firstn (Z.to_nat (intx.to_size_t offset)) (memory ec)
        ++ be_bytes 32 value
        ++ skipn (Z.to_nat (intx.to_size_t offset) + 32) (memory ec) /\
    length m = length (memory ec) /\
    span_of m (intx.to_size_t offset) 32 = Some (be_bytes 32 value).
Proof.
  intros Hst Hfit. pose proof (to_size_t_range offset) as Hoff.
  destruct (copy_to_inside (memory ec) (be_bytes 32 value) (intx.to_size_t offset))
    as (m & Hcopy & Hm & Hlen & Hspan).
  { lia. }
  { rewrite length_be_bytes. lia. }
  rewrite length_be_bytes in Hm, Hspan.
  exists m. split; [|auto].
  unfold StoreToMemory, stack_size. rewrite Hst. cbn [length].
  destruct (Z.ltb_spec (Z.of_nat (S (S (length rest)))) 2); [lia|].
  unfold intx.as_bytes. rewrite rev_le_split_be_bytes, Hcopy. reflexivity.
Qed.

Lemma LoadFromMemory_loads
    (ec : ExecutionContext) (offset value : word_t) (rest : list word_t) :
  stack ec = offset :: rest ->
  is_word value ->
  span_of (memory ec) (intx.to_size_t offset) 32 = Some (be_bytes 32 value) ->
  LoadFromMemory ec = Return (set_stack ec (value :: rest)).
Proof.
  intros Hst Hv Hspan. unfold LoadFromMemory, stack_size, kWordSize.
  rewrite Hst. cbn [length].
  destruct (Z.ltb_spec (Z.of_nat (S (length rest))) 1); [lia|].
  rewrite Hspan, (to_uint256_be_bytes value Hv). reflexivity.
Qed.

(** C5.  With [offset] on top of the stack and the word [v] below it, and
    [offset + 32] inside the [kMemorySize] bytes of the memory, MSTORE
    pops both and writes the 32-byte big-endian encoding of [v] at
    [offset], leaving every other byte; MLOAD, run on the resulting
    context with the same [offset] pushed again, reads those 32 bytes and
    replaces the offset with [v]. *)
Theorem MSTORE_MLOAD_roundtrip
    (ec : ExecutionContext) (offset v : word_t) (rest : list word_t) :
  stack ec = offset :: v :: rest ->
  is_word v ->
  Z.of_nat (length (memory ec)) = kMemorySize ->
  0 <= offset ->
  offset + 32 <= kMemorySize ->
  exists m,
    StoreToMemory ec = Return (set_memory (set_stack ec rest) m) /\
    m = firstn (Z.to_nat offset) (memory ec)
        ++ be_bytes 32 v
        ++ skipn (Z.to_nat offset + 32) (memory ec) /\
    Z.of_nat (length m) = kMemorySize /\
    LoadFromMemory (set_memory (set_stack ec (offset :: rest)) m)
    = Return (set_memory (set_stack ec (v :: rest)) m).
Proof.
  intros Hst Hv Hmem Hlo Hhi.
  assert (Hoff : intx.to_size_t offset = offset).
  { unfold intx.to_size_t. apply Z.mod_small. unfold kMemorySize in Hhi. lia. }
  destruct (StoreToMemory_stores ec offset v rest Hst)
    as (m & Hstore & Hm & Hlen & Hspan).
  { rewrite Hoff. lia. }
  rewrite Hoff in Hm, Hspan.
  exists m. split; [exact Hstore|]. split; [exact Hm|].
  split; [rewrite Hlen; exact Hmem|].
  apply (LoadFromMemory_loads
           (set_memory (set_stack ec (offset :: rest)) m) offset v rest).
  - reflexivity.
  - exact Hv.
  - rewrite Hoff. exact Hspan.
Qed.

(** The word 10 stored at offset 0 of a fresh memory and loaded again; the
    same at the unaligned offset 7 with a word that fills all 32 bytes. *)
Lemma MSTORE_MLOAD_roundtrip_witness :
  (exists m,
      StoreToMemory (set_stack (loaded [kMStore]) [0; 10])
      = Return (set_memory (set_stack (loaded [kMStore]) []) m) /\
      LoadFromMemory (set_memory (set_stack (loaded [kMStore]) [0]) m)
      = Return (set_memory (set_stack (loaded [kMStore]) [10]) m)) /\
  (exists m,
      StoreToMemory (set_stack (loaded [kMStore]) [7; 2 ^ 256 - 1])
      = Return (set_memory (set_stack (loaded [kMStore]) []) m) /\
      LoadFromMemory (set_memory (set_stack (loaded [kMStore]) [7]) m)
      = Return (set_memory (set_stack (loaded [kMStore]) [2 ^ 256 - 1]) m)).
Proof.
  split.
  - destruct (MSTORE_MLOAD_roundtrip (set_stack (loaded [kMStore]) [0; 10]) 0 10 [])
      as (m & Hstore & _ & _ & Hload).
    + reflexivity.
    + unfold is_word. lia.
    + vm_compute. reflexivity.
    + lia.
    + unfold kMemorySize. lia.
    + exists m. split; [exact Hstore | exact Hload].
  - destruct (MSTORE_MLOAD_roundtrip
                (set_stack (loaded [kMStore]) [7; 2 ^ 256 - 1]) 7 (2 ^ 256 - 1) [])
      as (m & Hstore & _ & _ & Hload).
    + reflexivity.
    + unfold is_word. lia.
    + vm_compute. reflexivity.
    + lia.
    + unfold kMemorySize. lia.
    + exists m. split; [exact Hstore | exact Hload].
Defined.

(** PUSH1 0x0a, PUSH1 0, MSTORE, PUSH1 0, MLOAD halts with 10 on top. *)
Example mstore_mload_run :
  halted_at (Interpret 6
               (loaded (hex [0x60; 0x0a; 0x60; 0x00; 0x52; 0x60; 0x00; 0x51])))
  = Some (8, [10]).
Proof. vm_compute. reflexivity. Qed.

(** Storing past the end of the memory array has no defined behaviour. *)
Example mstore_outside :
  StoreToMemory (set_stack (loaded [kMStore]) [kMemorySize - 31; 1]) = Undefined.
Proof. vm_compute. reflexivity. Qed.

End Memory.

(** ** The context invariant

    The side conditions of the theorems above (a program counter that is a
    [std::size_t], words on the stack, a memory of [kMemorySize] bytes) hold
    of a freshly loaded interpreter and are kept by every step. *)

Section Invariant.

Lemma loaded_ok (bc : list byte) :
  Z.of_nat (length bc) < 2 ^ 63 -> context_ok (loaded bc).
Proof.
  intros Hfit. constructor; cbn [program_counter bytecode stack memory loaded].
  - lia.
  - exact Hfit.
  - constructor.
  - unfold fresh_memory. rewrite repeat_length. apply Z2Nat.id.
    unfold kMemorySize. lia.
Qed.

Lemma intx_shl_is_word (value shift : Z) : is_word (intx.shl value shift).
Proof.
  unfold intx.shl, intx.shl64, intx.wrap, intx.num_bits, is_word.
  destruct (negb _); [lia|]. destruct (_ <=? _); [lia|].
  apply Z.mod_pos_bound. lia.
Qed.

Lemma to_uint256_is_word (bs : list byte) (w : word_t) :
  to_uint256 bs = Some w -> is_word w.
Proof.
  intros H. destruct (Nat.leb_spec (length bs) 32) as [Hle | Hgt].
  - rewrite (to_uint256_be_value bs Hle) in H. injection H as <-.
    pose proof (be_value_bound bs) as Hb. unfold is_word.
    assert (2 ^ (8 * Z.of_nat (length bs)) <= 2 ^ 256)
      by (apply Z.pow_le_mono_r; lia).
    lia.
  - rewrite (to_uint256_too_long bs Hgt) in H. discriminate.
Qed.

Lemma copy_to_length {A : Type} (c src c' : list A) (at_ : Z) :
  0 <= at_ -> copy_to c at_ src = Some c' -> length c' = length c.
Proof.
  intros Hat H. unfold copy_to in H.
  destruct (Z.leb_spec (at_ + Z.of_nat (length src)) (Z.of_nat (length c)));
    [|discriminate].
  injection H as <-. rewrite !length_app, length_firstn, length_skipn. lia.
Qed.

Lemma fill_window_Forall (P : word_t -> Prop) (idx : nat) (s window rest : list word_t) :
  Forall P s -> fill_window idx s = Some (window, rest) ->
  Forall P window /\ Forall P rest.
Proof.
  revert s window rest. induction idx as [| n IH]; intros s window rest Hs H.
  - injection H as <- <-. split; [constructor | exact Hs].
  - destruct s as [| elem s']; [discriminate|]. cbn [fill_window] in H.
    destruct (fill_window n s') as [[w r]|] eqn:E; [|discriminate].
    injection H as <- <-. inversion Hs; subst.
    destruct (IH s' w r) as [Hw Hr]; auto.
Qed.

(** PUSHn with immediate bytes: the pushed word comes from [to_uint256]. *)
Ltac push_keeps Hrun Hwords Hmem :=
  unfold PushToStack in Hrun; cbn [Z.eqb] in Hrun;
  destruct (span_of _ _ _); [|discriminate];
  destruct (to_uint256 _) eqn:?; [|discriminate];
  destruct (_ <? _); [discriminate|]; injection Hrun as <-;
  split; [|exact Hmem];
  constructor; [eapply to_uint256_is_word; eassumption | exact Hwords].

(** DUPk: the pushed word is one of the window, the rest is the old stack. *)
Ltac dup_keeps Hrun Hwords Hmem :=
  unfold DuplicateStackValue in Hrun;
  match type of Hrun with
  | context [fill_window ?k ?s] =>
      destruct (fill_window k s) as [[w r]|] eqn:E; [|discriminate];
      destruct (fill_window_Forall is_word _ _ _ _ Hwords E) as [Hw Hr];
      destruct (nth_error w (Nat.pred k)) as [x|] eqn:Ex; [|discriminate];
      destruct (_ <? _); [discriminate|]; injection Hrun as <-;
      split; [|exact Hmem]; cbn [stack set_stack]; constructor;
      [ eapply Forall_forall; [exact Hw | eapply nth_error_In, Ex]
      | rewrite push_each_rev; apply Forall_app; split; [|exact Hr];
        rewrite rev_involutive; exact Hw ]
  end.

(** A handler that returns keeps the invariant. *)
Lemma handler_keeps_ok
    (opcode : opcode_t) (handler : ExecutionContext -> outcome)
    (ec ec1 : ExecutionContext) :
  map_at kOpcodeHandlers opcode = Some handler ->
  context_ok ec -> handler ec = Return ec1 -> context_ok ec1.
Proof.
  intros Hh [Hpc Hfit Hwords Hmem] Hrun.
  destruct (handler_return_frame opcode handler ec ec1 Hh Hrun)
    as (Hbc & Hsame & Hjump).
  assert (Hpc1 : 0 <= program_counter ec1 < 2 ^ 64).
  { destruct (Byte.byte_eq_dec opcode kJump) as [E | E];
      [specialize (Hjump E); lia | rewrite (Hsame E); exact Hpc]. }
  assert (Hrest : Forall is_word (stack ec1) /\
                  Z.of_nat (length (memory ec1)) = kMemorySize).
  { apply map_at_Some_In in Hh. cbn [In kOpcodeHandlers] in Hh.
    repeat (destruct Hh as [Hh | Hh]; [injection Hh as <- <-|]); try destruct Hh.
    - destruct (Jump_return ec ec1 Hrun) as (c & r & Hst & -> & _).
      rewrite Hst in Hwords. inversion Hwords; subst. split; assumption.
    - dup_keeps Hrun Hwords Hmem.
    - push_keeps Hrun Hwords Hmem.
    - unfold PushToStack in Hrun. cbn [Z.eqb] in Hrun.
      destruct (_ <? _); [discriminate|]. injection Hrun as <-.
      split; [|exact Hmem]. constructor; [unfold is_word; lia | exact Hwords].
    - unfold LoadFromMemory in Hrun. destruct (_ <? _); [discriminate|].
      destruct (stack ec) as [| o r]; [discriminate|].
      destruct (span_of _ _ _) as [bs|]; [|discriminate].
      destruct (to_uint256 bs) as [w|] eqn:Ew; [|discriminate].
      injection Hrun as <-. inversion Hwords; subst.
      split; [|exact Hmem]. constructor; [eapply to_uint256_is_word, Ew | assumption].
    - unfold ShiftLeft in Hrun. destruct (_ <? _); [discriminate|].
      destruct (stack ec) as [| sh [| v r]]; try discriminate.
      injection Hrun as <-. inversion Hwords as [| ? ? _ Hw2]; subst.
      inversion Hw2; subst.
      split; [|exact Hmem]. constructor; [apply intx_shl_is_word | assumption].
    - push_keeps Hrun Hwords Hmem.
    - push_keeps Hrun Hwords Hmem.
    - unfold StoreToMemory in Hrun. destruct (_ <? _); [discriminate|].
      destruct (stack ec) as [| o [| v r]]; try discriminate.
      destruct (copy_to _ _ _) as [m|] eqn:Em; [|discriminate].
      injection Hrun as <-. inversion Hwords as [| ? ? _ Hw2]; subst.
      inversion Hw2; subst. split; [assumption|].
      cbn [memory set_memory].
      rewrite (copy_to_length _ _ _ _ (proj1 (to_size_t_range o)) Em). exact Hmem.
    - unfold SwapStackValues in Hrun. destruct (_ <? _); [discriminate|].
      destruct (stack ec) as [| a [| b r]]; try discriminate.
      injection Hrun as <-. inversion Hwords as [| ? ? Ha Hw2]; subst.
      inversion Hw2; subst. split; [|exact Hmem].
      constructor; [|constructor]; assumption.
    - dup_keeps Hrun Hwords Hmem. }
  destruct Hrest as [Hw1 Hm1].
  constructor; [exact Hpc1 | rewrite Hbc; exact Hfit | exact Hw1 | exact Hm1].
Qed.

(** Every step that goes on keeps the invariant. *)
Lemma Interpret_step_keeps_ok (ec ec' : ExecutionContext) :
  context_ok ec -> Interpret_step ec = Running ec' -> context_ok ec'.
Proof.
  intros Hok Hstep. pose proof Hok as [Hpc Hfit _ _].
  destruct (Interpret_step_running_inv ec ec' (proj1 Hpc) Hfit Hstep)
    as (opcode & handler & ec1 & info & Hf & Hh & Hrun & Hi & ->).
  destruct (handler_keeps_ok opcode handler ec ec1 Hh Hok Hrun)
    as [Hpc1 Hfit1 Hw1 Hm1].
  destruct (handler_has_info opcode handler Hh) as (info' & Hi' & Hadv).
  rewrite Hi in Hi'. injection Hi' as <-.
  destruct (handler_return_frame opcode handler ec ec1 Hh Hrun)
    as (Hbc & Hsame & Hjump).
  assert (Hin : program_counter ec1 < Z.of_nat (length (bytecode ec))).
  { destruct (Byte.byte_eq_dec opcode kJump) as [E | E];
      [specialize (Hjump E); lia|].
    rewrite (Hsame E). eapply nth_error_Some_lt, Hf. }
  constructor; cbn [program_counter bytecode stack memory set_program_counter];
    try assumption. lia.
Qed.

End Invariant.

(** ** Pushing up to the bound *)

Section PushSequences.

(** One PUSHn or DUPk step below 1024 words: the loop goes on, one word
    deeper. *)
Lemma push_step_running (ec : ExecutionContext) :
  context_ok ec -> push_ready ec ->
  stack_size ec < kMaxStackWordsSize ->
  exists ec', Interpret_step ec = Running ec' /\ stack_size ec' = stack_size ec + 1.
Proof.
  intros [Hpc Hfit _ _] (opcode & handler & Hf & Hop & Hh & Hdef) Hsz.
  destruct (push_handler_shape opcode handler ec Hop Hh Hdef) as (w & who & Hrun).
  destruct (Z.ltb_spec (stack_size ec) kMaxStackSize) as [_ | Hge];
    [|unfold kMaxStackSize, kMaxStackWordsSize in *; lia].
  destruct (Interpret_step_return ec opcode Hf _ handler (proj1 Hpc) Hfit Hh Hrun)
    as (info & _ & Hstep).
  eexists. split; [exact Hstep|].
  unfold stack_size. cbn [stack set_program_counter set_stack length]. lia.
Qed.

Lemma push_sequence_running (n : nat) :
  forall ec : ExecutionContext,
    context_ok ec ->
    (forall i ec_i, (i < n)%nat -> Interpret i ec = Running ec_i -> push_ready ec_i) ->
    stack_size ec + Z.of_nat n <= kMaxStackWordsSize ->
    exists ec', Interpret n ec = Running ec' /\
                stack_size ec' = stack_size ec + Z.of_nat n.
Proof.
  induction n as [| m IH]; intros ec Hok Hready Hsz.
  - exists ec. split; [reflexivity | cbn; lia].
  - destruct (push_step_running ec Hok) as (ec1 & Hstep & Hsz1).
    { apply (Hready 0%nat ec); [lia | reflexivity]. }
    { lia. }
    destruct (IH ec1) as (ec' & Hrun & Hsz').
    { exact (Interpret_step_keeps_ok ec ec1 Hok Hstep). }
    { intros i ec_i Hi Hruni. apply (Hready (S i) ec_i); [lia|].
      cbn [Interpret]. rewrite Hstep. exact Hruni. }
    { lia. }
    exists ec'. split; [cbn [Interpret]; rewrite Hstep; exact Hrun | lia].
Qed.

(** C1, amended.  Pushing up to depth 1024 never faults: from a context
    that satisfies the invariant, [n] loop iterations each of which runs a
    PUSHn or DUPk with its operands there, ending at a depth of at most
    1024, leave the loop running with [n] more words on the stack.  And a
    PUSHn or DUPk with its operands there pushes exactly one word [w]; the
    only fault it can raise is StackOverflow, which it raises after the
    push: the context it leaves has [w] on top of the old stack, with
    program counter, bytecode and memory as before. *)
Theorem push_within_bound :
  (forall (n : nat) (ec : ExecutionContext),
      context_ok ec ->
      (forall i ec_i,
          (i < n)%nat -> Interpret i ec = Running ec_i -> push_ready ec_i) ->
      stack_size ec + Z.of_nat n <= kMaxStackWordsSize ->
      exists ec', Interpret n ec = Running ec' /\
                  stack_size ec' = stack_size ec + Z.of_nat n) /\
  (forall (opcode : opcode_t) (handler : ExecutionContext -> outcome)
          (ec : ExecutionContext),
      In opcode [kPush0; kPush1; kPush2; kPush12; kDup2; kDup3] ->
      map_at kOpcodeHandlers opcode = Some handler ->
      handler ec <> Undefined ->
      exists (w : word_t) (who : string),
        let ec' := set_stack ec (w :: stack ec) in
        (stack_size ec < kMaxStackWordsSize -> handler ec = Return ec') /\
        (handler ec = Return ec' \/
         handler ec = ThrowRuntimeError who kStackOverflow ec')).
Proof.
  split; [exact push_sequence_running|].
  intros opcode handler ec Hop Hh Hdef.
  destruct (push_handler_shape opcode handler ec Hop Hh Hdef) as (w & who & Hrun).
  exists w, who. cbv zeta. rewrite Hrun. unfold kMaxStackWordsSize.
  destruct (Z.ltb_spec (stack_size ec) kMaxStackSize) as [Hlt | Hge].
  - split; [reflexivity | left; reflexivity].
  - split; [|right; reflexivity].
    unfold kMaxStackSize, kMaxStackWordsSize in Hge. lia.
Qed.

(** PUSH0, PUSH1 0x2a, DUP2 from a fresh interpreter: three iterations
    leave three words; and PUSH1 0x2a on its own. *)
Lemma push_within_bound_witness :
  (exists ec', Interpret 3 (loaded (hex [0x5f; 0x60; 0x2a; 0x81])) = Running ec' /\
               stack_size ec' = 3) /\
  (exists (w : word_t) (who : string),
      let ec := loaded (hex [0x60; 0x2a]) in
      let ec' := set_stack ec (w :: stack ec) in
      (stack_size ec < kMaxStackWordsSize -> PushToStack 1 ec = Return ec') /\
      (PushToStack 1 ec = Return ec' \/
       PushToStack 1 ec = ThrowRuntimeError who kStackOverflow ec')).
Proof.
  destruct push_within_bound as [Hseq Hone]. split.
  - apply (Hseq 3%nat (loaded (hex [0x5f; 0x60; 0x2a; 0x81]))).
    + apply loaded_ok. cbn. lia.
    + intros i ec_i Hi Hrun.
      destruct i as [| [| [| i]]]; [| | |lia];
        cbv -[fresh_memory] in Hrun; injection Hrun as <-.
      * exists kPush0, (PushToStack 0). repeat split; [cbn; auto|].
        cbv -[fresh_memory]. discriminate.
      * exists kPush1, (PushToStack 1). repeat split; [cbn; auto|].
        cbv -[fresh_memory]. discriminate.
      * exists kDup2, (DuplicateStackValue 2). repeat split; [cbn; auto 10|].
        cbv -[fresh_memory]. discriminate.
    + vm_compute. discriminate.
  - apply (Hone kPush1 (PushToStack 1) (loaded (hex [0x60; 0x2a]))).
    + cbn. auto.
    + reflexivity.
    + cbv -[fresh_memory]. discriminate.
Defined.

End PushSequences.


(** * Further properties of the code *)

(** ** [to_uint256] *)

Section ToUint256.

(** Up to 32 bytes [to_uint256] returns their big-endian value; with more it
    throws [std::invalid_argument]. *)
Theorem to_uint256_characterised (bs : list byte) :
  to_uint256 bs = if (length bs <=? 32)%nat then Some (be_value bs) else None.
Proof.
  destruct (Nat.leb_spec (length bs) 32) as [Hle | Hgt].
  - apply to_uint256_be_value, Hle.
  - apply to_uint256_too_long, Hgt.
Qed.

(** Byte arrays of one length that give the same word are the same array. *)
Theorem to_uint256_injective (bs1 bs2 : list byte) (w : word_t) :
  length bs1 = length bs2 ->
  to_uint256 bs1 = Some w -> to_uint256 bs2 = Some w -> bs1 = bs2.
Proof.
  intros Hlen H1 H2.
  destruct (Nat.leb_spec (length bs1) 32) as [Hle | Hgt];
    [|rewrite (to_uint256_too_long bs1 Hgt) in H1; discriminate].
  rewrite to_uint256_le_combine in H1 by exact Hle.
  rewrite to_uint256_le_combine in H2 by (rewrite <- Hlen; exact Hle).
  injection H1 as <-. injection H2 as H2.
  apply le_combine_inj in H2; [|rewrite !length_rev; congruence].
  apply (f_equal (@rev byte)) in H2. rewrite !rev_involutive in H2. congruence.
Qed.

Lemma to_uint256_injective_witness : hex [0x01; 0x02] = [Byte.x01; Byte.x02].
Proof.
  apply (to_uint256_injective (hex [0x01; 0x02]) [Byte.x01; Byte.x02] 258).
  - reflexivity.
  - reflexivity.
  - reflexivity.
Defined.

(** Zero bytes in front do not change the word: a shorter immediate and the
    same immediate padded on the left are pushed as the same word. *)
Theorem to_uint256_leading_zeros (k : nat) (bs : list byte) :
  (k + length bs <= 32)%nat ->
  to_uint256 (repeat Byte.x00 k ++ bs) = to_uint256 bs.
Proof.
  intros Hlen.
  rewrite !to_uint256_le_combine
    by (rewrite ?length_app, ?repeat_length; lia).
  rewrite rev_app_distr, rev_repeat, le_combine_app_0. reflexivity.
Qed.

Lemma to_uint256_leading_zeros_witness :
  to_uint256 (repeat Byte.x00 30 ++ [Byte.x01; Byte.x02])
  = to_uint256 [Byte.x01; Byte.x02].
Proof. apply (to_uint256_leading_zeros 30 [Byte.x01; Byte.x02]). cbn. lia. Defined.

End ToUint256.

(** ** SWAP1 *)

Section Swap.

Lemma set_stack_same (ec : ExecutionContext) : set_stack ec (stack ec) = ec.
Proof. destruct ec. reflexivity. Qed.

(** SWAP1 exchanges the two top words and touches nothing else; run twice it
    gives back the context it started from. *)
Theorem SwapStackValues_involution
    (ec : ExecutionContext) (a b : word_t) (rest : list word_t) :
  stack ec = a :: b :: rest ->
  SwapStackValues ec = Return (set_stack ec (b :: a :: rest)) /\
  SwapStackValues (set_stack ec (b :: a :: rest)) = Return ec.
Proof.
  intros Hst.
  assert (Hswap : forall ec' x y r,
             stack ec' = x :: y :: r ->
             SwapStackValues ec' = Return (set_stack ec' (y :: x :: r))).
  { intros ec' x y r H. unfold SwapStackValues, stack_size. rewrite H.
    cbn [length]. destruct (Z.ltb_spec (Z.of_nat (S (S (length r)))) 2); [lia|].
    reflexivity. }
  split; [apply Hswap, Hst|].
  rewrite (Hswap _ b a rest) by reflexivity.
  f_equal. rewrite <- Hst. destruct ec. reflexivity.
Qed.

Lemma SwapStackValues_involution_witness :
  SwapStackValues (set_stack (loaded [kSwap1]) [1; 2; 3])
  = Return (set_stack (set_stack (loaded [kSwap1]) [1; 2; 3]) [2; 1; 3]).
Proof.
  apply (SwapStackValues_involution (set_stack (loaded [kSwap1]) [1; 2; 3]) 1 2 [3]).
  reflexivity.
Defined.

End Swap.

(** ** What each handler can return or throw *)

Section HandlerOutcomes.

Lemma StoreToMemory_return (ec ec1 : ExecutionContext) :
  StoreToMemory ec = Return ec1 ->
  exists offset value rest m,
    stack ec = offset :: value :: rest /\
    copy_to (memory ec) (intx.to_size_t offset) (be_bytes 32 value) = Some m /\
    ec1 = set_memory (set_stack ec rest) m.
Proof.
  unfold StoreToMemory. destruct (_ <? _); [discriminate|].
  destruct (stack ec) as [| offset [| value rest]]; try discriminate.
  unfold intx.as_bytes. rewrite rev_le_split_be_bytes.
  destruct (copy_to _ _ _) as [m|] eqn:Hm; [|discriminate].
  intros [= <-]. exists offset, value, rest, m. repeat split; auto.
Qed.

Lemma LoadFromMemory_return (ec ec1 : ExecutionContext) :
  LoadFromMemory ec = Return ec1 ->
  exists offset rest bs w,
    stack ec = offset :: rest /\
    span_of (memory ec) (intx.to_size_t offset) kWordSize = Some bs /\
    to_uint256 bs = Some w /\
    ec1 = set_stack ec (w :: rest).
Proof.
  unfold LoadFromMemory. destruct (_ <? _); [discriminate|].
  destruct (stack ec) as [| offset rest]; [discriminate|].
  destruct (span_of _ _ _) as [bs|] eqn:Hs; [|discriminate].
  destruct (to_uint256 bs) as [w|] eqn:Hw; [|discriminate].
  intros [= <-]. exists offset, rest, bs, w. repeat split; assumption.
Qed.

Lemma SwapStackValues_return (ec ec1 : ExecutionContext) :
  SwapStackValues ec = Return ec1 ->
  exists first second rest,
    stack ec = first :: second :: rest /\
    ec1 = set_stack ec (second :: first :: rest).
Proof.
  unfold SwapStackValues. destruct (_ <? _); [discriminate|].
  destruct (stack ec) as [| a [| b rest]]; try discriminate.
  intros [= <-]. exists a, b, rest. split; reflexivity.
Qed.

Lemma ShiftLeft_return (ec ec1 : ExecutionContext) :
  ShiftLeft ec = Return ec1 ->
  exists shift value rest,
    stack ec = shift :: value :: rest /\
    ec1 = set_stack ec (intx.shl value shift :: rest).
Proof.
  unfold ShiftLeft. destruct (_ <? _); [discriminate|].
  destruct (stack ec) as [| a [| b rest]]; try discriminate.
  intros [= <-]. exists a, b, rest. split; reflexivity.
Qed.

(** A returning PUSHn or DUPk found fewer than [kMaxStackSize] words. *)
Lemma push_handler_return
    (opcode : opcode_t) (handler : ExecutionContext -> outcome)
    (ec ec1 : ExecutionContext) :
  In opcode [kPush0; kPush1; kPush2; kPush12; kDup2; kDup3] ->
  map_at kOpcodeHandlers opcode = Some handler ->
  handler ec = Return ec1 ->
  stack_size ec < kMaxStackSize /\ exists w, ec1 = set_stack ec (w :: stack ec).
Proof.
  intros Hop Hh Hrun.
  destruct (push_handler_shape opcode handler ec Hop Hh) as (w & who & Hshape);
    [congruence|].
  rewrite Hshape in Hrun.
  destruct (Z.ltb_spec (stack_size ec) kMaxStackSize); [|discriminate].
  injection Hrun as <-. split; [assumption | exists w; reflexivity].
Qed.

(** A throwing PUSHn or DUPk found at least [kMaxStackSize] words, and has
    pushed its word. *)
Lemma push_handler_throw
    (opcode : opcode_t) (handler : ExecutionContext -> outcome)
    (ec ec1 : ExecutionContext) (who : string) (e : RevertError) :
  In opcode [kPush0; kPush1; kPush2; kPush12; kDup2; kDup3] ->
  map_at kOpcodeHandlers opcode = Some handler ->
  handler ec = ThrowRuntimeError who e ec1 ->
  e = kStackOverflow /\ kMaxStackSize <= stack_size ec /\
  exists w, ec1 = set_stack ec (w :: stack ec).
Proof.
  intros Hop Hh Hrun.
  destruct (push_handler_shape opcode handler ec Hop Hh) as (w & who' & Hshape);
    [congruence|].
  rewrite Hshape in Hrun.
  destruct (Z.ltb_spec (stack_size ec) kMaxStackSize); [discriminate|].
  injection Hrun as <- <- <-. split; [reflexivity|].
  split; [assumption | exists w; reflexivity].
Qed.

(** The handlers that check the stack size first throw nothing but
    StackUnderflow, except JUMP, which can also throw InvalidJump. *)
Lemma checked_handler_throw
    (ec ec1 : ExecutionContext) (who : string) (e : RevertError) :
  (SwapStackValues ec = ThrowRuntimeError who e ec1 \/
   ShiftLeft ec = ThrowRuntimeError who e ec1 \/
   StoreToMemory ec = ThrowRuntimeError who e ec1 ->
   e = kStackUnderflow /\ ec1 = ec /\ stack_size ec < 2) /\
  (LoadFromMemory ec = ThrowRuntimeError who e ec1 ->
   e = kStackUnderflow /\ ec1 = ec /\ stack_size ec < 1) /\
  (Jump ec = ThrowRuntimeError who e ec1 ->
   (e = kStackUnderflow /\ ec1 = ec /\ stack_size ec < 1) \/
   (e = kInvalidJump /\
    exists counter rest b,
      stack ec = counter :: rest /\
      ec1 = set_program_counter (set_stack ec rest) (intx.to_size_t counter) /\
      nth_error (bytecode ec) (Z.to_nat (intx.to_size_t counter)) = Some b /\
      b <> kJumpDest)).
Proof.
  split; [|split].
  - unfold SwapStackValues, ShiftLeft, StoreToMemory.
    destruct (Z.ltb_spec (stack_size ec) 2) as [Hlt | Hge].
    + intros [H | [H | H]]; injection H as <- <- <-; repeat split; assumption.
    + intros [H | [H | H]]; revert H; break_match; discriminate.
  - unfold LoadFromMemory.
    destruct (Z.ltb_spec (stack_size ec) 1) as [Hlt | Hge].
    + intros H; injection H as <- <- <-; repeat split; assumption.
    + break_match; discriminate.
  - unfold Jump.
    destruct (Z.ltb_spec (stack_size ec) 1) as [Hlt | Hge].
    + intros H; injection H as <- <- <-. left. repeat split; assumption.
    + destruct (stack ec) as [| counter rest] eqn:Hst; [discriminate|].
      cbn [bytecode program_counter set_program_counter set_stack].
      destruct (nth_error (bytecode ec) (Z.to_nat (intx.to_size_t counter)))
        as [b|] eqn:Hb; [|discriminate].
      destruct (Byte.eqb b kJumpDest) eqn:E; cbn [negb]; [discriminate|].
      intros H; injection H as <- <- <-. right. split; [reflexivity|].
      exists counter, rest, b. repeat split; try assumption.
      apply Byte.eqb_false, E.
Qed.

(** Only JUMP lets [std::out_of_range] escape, and only for a target
    outside the bytecode. *)
Lemma handler_out_of_range
    (opcode : opcode_t) (handler : ExecutionContext -> outcome)
    (ec ec1 : ExecutionContext) :
  map_at kOpcodeHandlers opcode = Some handler ->
  handler ec = ThrowOutOfRange ec1 ->
  opcode = kJump /\
  exists counter rest,
    stack ec = counter :: rest /\
    ec1 = set_program_counter (set_stack ec rest) (intx.to_size_t counter) /\
    Z.of_nat (length (bytecode ec)) <= intx.to_size_t counter.
Proof.
  intros Hh Hrun. apply map_at_Some_In in Hh. cbn [In kOpcodeHandlers] in Hh.
  destruct Hh as [Hh | Hh].
  - injection Hh as <- <-. split; [reflexivity|]. revert Hrun. unfold Jump.
    destruct (_ <? _); [discriminate|].
    destruct (stack ec) as [| counter rest]; [discriminate|].
    cbn [bytecode program_counter set_program_counter set_stack].
    destruct (nth_error (bytecode ec) (Z.to_nat (intx.to_size_t counter)))
      as [b|] eqn:Hb.
    + destruct (negb _); discriminate.
    + intros [= <-]. exists counter, rest. repeat split.
      apply nth_error_None in Hb. pose proof (to_size_t_range counter). lia.
  - exfalso.
    repeat (destruct Hh as [Hh | Hh]; [injection Hh as <- <-|]); try destruct Hh.
    all: revert Hrun.
    all: unfold PushToStack, DuplicateStackValue, LoadFromMemory, ShiftLeft,
           StoreToMemory, SwapStackValues;
      break_match; discriminate.
Qed.

(** No handler of the table throws the [std::invalid_argument] of
    [to_uint256]: every span it is given has at most 32 bytes. *)
Lemma handler_no_invalid_argument
    (opcode : opcode_t) (handler : ExecutionContext -> outcome)
    (ec ec1 : ExecutionContext) :
  map_at kOpcodeHandlers opcode = Some handler ->
  handler ec <> ThrowInvalidArgument ec1.
Proof.
  intros Hh Hrun. apply map_at_Some_In in Hh. cbn [In kOpcodeHandlers] in Hh.
  repeat (destruct Hh as [Hh | Hh]; [injection Hh as <- <-|]); try destruct Hh.
  all: revert Hrun.
  all: try (unfold Jump, DuplicateStackValue, ShiftLeft, StoreToMemory,
              SwapStackValues; break_match; discriminate).
  all: unfold PushToStack, LoadFromMemory; cbn [Z.eqb];
    repeat match goal with
           | |- context [span_of ?c ?f ?n] =>
               let Hs := fresh "Hs" in
               destruct (span_of c f n) eqn:Hs;
               [ apply span_of_length in Hs;
                 rewrite to_uint256_be_value by (unfold kWordSize in *; lia)
               | ]
           | |- context [match ?x with _ => _ end] => destruct x
           end; discriminate.
Qed.

End HandlerOutcomes.

(** ** Steps and runs, taken apart *)

Section StepInversion.

Lemma Interpret_step_halted_same (ec ec' : ExecutionContext) :
  Interpret_step ec = Halted ec' -> ec' = ec.
Proof.
  unfold Interpret_step. destruct (_ <? _); [|congruence].
  break_match; discriminate.
Qed.

(** A step that goes on, without any assumption on the context. *)
Lemma Interpret_step_running_handler (ec ec' : ExecutionContext) :
  Interpret_step ec = Running ec' ->
  exists opcode handler ec1 info,
    nth_error (bytecode ec) (Z.to_nat (program_counter ec)) = Some opcode /\
    map_at kOpcodeHandlers opcode = Some handler /\
    handler ec = Return ec1 /\
    map_at kOpcodeInfo opcode = Some info /\
    ec' = set_program_counter ec1
            (size_add (size_add (program_counter ec1) 1) (advance_by info)).
Proof.
  unfold Interpret_step. destruct (_ <? _); [|discriminate].
  destruct (nth_error _ _) as [opcode|] eqn:Hf; [|discriminate].
  destruct (map_at kOpcodeHandlers opcode) as [handler|] eqn:Hh; [|discriminate].
  destruct (handler ec) as [ec1 | | | |] eqn:Hrun; try discriminate.
  destruct (map_at kOpcodeInfo opcode) as [info|] eqn:Hi; [|discriminate].
  intros [= <-]. exists opcode, handler, ec1, info. repeat split; auto.
Qed.

(** A step that aborts: the fetched byte has no handler, or its handler
    threw. *)
Lemma Interpret_step_aborted_inv (ec ec' : ExecutionContext) (f : Fault) :
  Interpret_step ec = Aborted f ec' ->
  exists opcode,
    nth_error (bytecode ec) (Z.to_nat (program_counter ec)) = Some opcode /\
    ((map_at kOpcodeHandlers opcode = None /\
      f = UnrecognizedOpcode opcode /\ ec' = ec) \/
     (exists handler,
         map_at kOpcodeHandlers opcode = Some handler /\
         ((handler ec = ThrowOutOfRange ec' /\ f = UnrecognizedOpcode opcode) \/
          (exists who e,
              handler ec = ThrowRuntimeError who e ec' /\ f = Revert who e)))).
Proof.
  unfold Interpret_step. destruct (_ <? _); [|discriminate].
  destruct (nth_error _ _) as [opcode|] eqn:Hf; [|discriminate].
  destruct (map_at kOpcodeHandlers opcode) as [handler|] eqn:Hh.
  - destruct (handler ec) as [ec1 | who e ec1 | ec1 | ec1 |] eqn:Hrun;
      try discriminate.
    + destruct (handler_has_info opcode handler Hh) as (info & Hi & _).
      rewrite Hi. discriminate.
    + intros [= <- <-]. exists opcode. split; [auto|]. right.
      exists handler. split; [exact Hh|]. right. exists who, e. split; auto.
    + intros [= <- <-]. exists opcode. split; [auto|]. right.
      exists handler. split; [exact Hh|]. left. split; auto.
  - intros [= <- <-]. exists opcode. split; [auto|]. left. repeat split; auto.
Qed.

(** Every [std::runtime_error] a handler of the table throws. *)
Lemma handler_throw_causes
    (opcode : opcode_t) (handler : ExecutionContext -> outcome)
    (ec ec1 : ExecutionContext) (who : string) (e : RevertError) :
  map_at kOpcodeHandlers opcode = Some handler ->
  handler ec = ThrowRuntimeError who e ec1 ->
  (e = kStackUnderflow /\ ec1 = ec /\ stack_size ec < 2) \/
  (e = kStackOverflow /\ kMaxStackSize <= stack_size ec /\
   exists w, ec1 = set_stack ec (w :: stack ec)) \/
  (e = kInvalidJump /\ opcode = kJump /\
   exists counter rest b,
     stack ec = counter :: rest /\
     ec1 = set_program_counter (set_stack ec rest) (intx.to_size_t counter) /\
     nth_error (bytecode ec) (Z.to_nat (intx.to_size_t counter)) = Some b /\
     b <> kJumpDest).
Proof.
  intros Hh Hrun.
  destruct (checked_handler_throw ec ec1 who e) as (Htwo & Hload & Hjump).
  pose proof (push_handler_throw opcode handler ec ec1 who e) as Hpush.
  pose proof Hh as Hin. apply map_at_Some_In in Hin.
  cbn [In kOpcodeHandlers] in Hin.
  repeat (destruct Hin as [Hin | Hin]; [injection Hin as <- <-|]);
    try destruct Hin.
  - destruct (Hjump Hrun) as [(-> & -> & Hsz) | (-> & Hinv)].
    + left. repeat split; auto; lia.
    + right. right. repeat split. exact Hinv.
  - right. left. apply Hpush; [cbn; auto 10 | exact Hh | exact Hrun].
  - right. left. apply Hpush; [cbn; auto 10 | exact Hh | exact Hrun].
  - right. left. apply Hpush; [cbn; auto 10 | exact Hh | exact Hrun].
  - left. destruct (Hload Hrun) as (-> & -> & Hsz). repeat split; auto; lia.
  - left. apply Htwo. auto.
  - right. left. apply Hpush; [cbn; auto 10 | exact Hh | exact Hrun].
  - right. left. apply Hpush; [cbn; auto 10 | exact Hh | exact Hrun].
  - left. apply Htwo. auto.
  - left. apply Htwo. auto.
  - right. left. apply Hpush; [cbn; auto 10 | exact Hh | exact Hrun].
Qed.

(** What a returning handler has done to the stack depth and the memory. *)
Ltac effect_done :=
  cbn [stack memory set_stack set_program_counter set_memory length];
  repeat match goal with
         | |- context [stack_effect ?op] =>
             let v := eval vm_compute in (stack_effect op) in
             change (stack_effect op) with v
         end;
  repeat split;
  first [ lia
        | let H := fresh in
          intros H;
          first [discriminate H | reflexivity | contradiction H; reflexivity] ].

Lemma handler_return_effect
    (opcode : opcode_t) (handler : ExecutionContext -> outcome)
    (ec ec1 : ExecutionContext) :
  map_at kOpcodeHandlers opcode = Some handler ->
  handler ec = Return ec1 ->
  stack_size ec1 = stack_size ec + stack_effect opcode /\
  (stack_effect opcode = 1 -> stack_size ec < kMaxStackSize) /\
  (opcode <> kMStore -> memory ec1 = memory ec).
Proof.
  intros Hh Hrun.
  pose proof (push_handler_return opcode handler ec ec1) as Hpush.
  pose proof Hh as Hin. apply map_at_Some_In in Hin.
  cbn [In kOpcodeHandlers] in Hin.
  assert (Hpushed :
    In opcode [kPush0; kPush1; kPush2; kPush12; kDup2; kDup3] ->
    stack_effect opcode = 1 ->
    stack_size ec1 = stack_size ec + stack_effect opcode /\
    (stack_effect opcode = 1 -> stack_size ec < kMaxStackSize) /\
    (opcode <> kMStore -> memory ec1 = memory ec)).
  { intros Hop Heff. destruct (Hpush Hop Hh Hrun) as (Hsz & w & ->).
    rewrite Heff. unfold stack_size. cbn [stack memory set_stack length].
    repeat split; auto. lia. }
  repeat (destruct Hin as [Hin | Hin]; [injection Hin as <- <-|]);
    try destruct Hin.
  - destruct (Jump_return ec ec1 Hrun) as (c & r & Hst & -> & _).
    unfold stack_size. rewrite Hst. effect_done.
  - apply Hpushed; [cbn; auto 10 | reflexivity].
  - apply Hpushed; [cbn; auto 10 | reflexivity].
  - apply Hpushed; [cbn; auto 10 | reflexivity].
  - destruct (LoadFromMemory_return ec ec1 Hrun) as (o & r & bs & w & Hst & _ & _ & ->).
    unfold stack_size. rewrite Hst. effect_done.
  - destruct (ShiftLeft_return ec ec1 Hrun) as (a & b & r & Hst & ->).
    unfold stack_size. rewrite Hst. effect_done.
  - apply Hpushed; [cbn; auto 10 | reflexivity].
  - apply Hpushed; [cbn; auto 10 | reflexivity].
  - destruct (StoreToMemory_return ec ec1 Hrun) as (o & v & r & m & Hst & _ & ->).
    unfold stack_size. rewrite Hst. effect_done.
  - destruct (SwapStackValues_return ec ec1 Hrun) as (a & b & r & Hst & ->).
    unfold stack_size. rewrite Hst. effect_done.
  - apply Hpushed; [cbn; auto 10 | reflexivity].
Qed.

(** What an aborting step leaves: bytecode and memory as they were, at most
    one word more on the stack. *)
Lemma Interpret_step_aborted_frame (ec ec' : ExecutionContext) (f : Fault) :
  Interpret_step ec = Aborted f ec' ->
  bytecode ec' = bytecode ec /\ memory ec' = memory ec /\
  stack_size ec' <= stack_size ec + 1.
Proof.
  intros Hstep.
  destruct (Interpret_step_aborted_inv ec ec' f Hstep)
    as (opcode & Hf & [(_ & _ & ->) | (handler & Hh & [[Hrun _] | (who & e & Hrun & _)])]).
  - repeat split; lia.
  - destruct (handler_out_of_range opcode handler ec ec' Hh Hrun)
      as (_ & c & r & Hst & -> & _).
    unfold stack_size. rewrite Hst. cbn. repeat split; lia.
  - destruct (handler_throw_causes opcode handler ec ec' who e Hh Hrun)
      as [(_ & -> & _) | [(_ & _ & w & ->) | (_ & _ & c & r & b & Hst & -> & _)]].
    + repeat split; lia.
    + unfold stack_size. cbn. repeat split; lia.
    + unfold stack_size. rewrite Hst. cbn. repeat split; lia.
Qed.

End StepInversion.

(** ** Faults *)

Section Faults.

(** Every abort with a handler's error has one of three causes.  A
    StackUnderflow leaves the context untouched.  A StackOverflow found
    [kMaxStackSize] words or more and leaves one more.  An InvalidJump was
    raised by JUMP after it popped the target and stored it in the program
    counter, and the byte there is not JUMPDEST.  GasExceeded and
    MemoryUnalignedAccess are never the cause. *)
Theorem revert_abort_causes
    (ec ec' : ExecutionContext) (who : string) (e : RevertError) :
  Interpret_step ec = Aborted (Revert who e) ec' ->
  ((e = kStackUnderflow /\ ec' = ec /\ stack_size ec < 2) \/
   (e = kStackOverflow /\ kMaxStackSize <= stack_size ec /\
    exists w, ec' = set_stack ec (w :: stack ec)) \/
   (e = kInvalidJump /\
    nth_error (bytecode ec) (Z.to_nat (program_counter ec)) = Some kJump /\
    exists counter rest b,
      stack ec = counter :: rest /\
      ec' = set_program_counter (set_stack ec rest) (intx.to_size_t counter) /\
      nth_error (bytecode ec) (Z.to_nat (intx.to_size_t counter)) = Some b /\
      b <> kJumpDest)) /\
  e <> kGasExceeded /\ e <> kMemoryUnalignedAccess.
Proof.
  intros Hstep.
  destruct (Interpret_step_aborted_inv ec ec' _ Hstep)
    as (opcode & Hf & [(_ & Hbad & _) | (handler & Hh & [[_ Hbad] | (who' & e' & Hrun & Heq)])]);
    try discriminate.
  injection Heq as <- <-.
  destruct (handler_throw_causes opcode handler ec ec' who e Hh Hrun)
    as [(-> & Hrest) | [(-> & Hrest) | (-> & -> & Hrest)]].
  - split; [left; split; [reflexivity | exact Hrest] | split; discriminate].
  - split; [right; left; split; [reflexivity | exact Hrest] | split; discriminate].
  - split; [right; right; split; [reflexivity | split; [exact Hf | exact Hrest]]
           | split; discriminate].
Qed.

(** SHL on a one-word stack: the abort is a StackUnderflow and the word is
    still there. *)
Lemma revert_abort_causes_witness :
  Interpret_step (set_stack (loaded [kShl]) [5])
  = Aborted (Revert "SHL" kStackUnderflow) (set_stack (loaded [kShl]) [5]) /\
  kStackUnderflow <> kGasExceeded /\ kStackUnderflow <> kMemoryUnalignedAccess.
Proof.
  assert (Hstep : Interpret_step (set_stack (loaded [kShl]) [5])
                  = Aborted (Revert "SHL" kStackUnderflow)
                      (set_stack (loaded [kShl]) [5])) by reflexivity.
  split; [exact Hstep|].
  apply (revert_abort_causes (set_stack (loaded [kShl]) [5])
           (set_stack (loaded [kShl]) [5]) "SHL" kStackUnderflow).
  exact Hstep.
Defined.

End Faults.

(** ** The unrecognized-opcode report *)

Section Unrecognized.

(** A step is reported as an unrecognized opcode in exactly two cases: the
    fetched byte has no handler, and then the context is untouched; or the
    fetched byte is JUMP and the popped target lies outside the bytecode,
    and then the report names the JUMP byte while the context has lost the
    target word and has the target as its program counter. *)
Theorem unrecognized_abort_iff
    (ec ec' : ExecutionContext) (opcode : opcode_t) :
  Interpret_step ec = Aborted (UnrecognizedOpcode opcode) ec' <->
  nth_error (bytecode ec) (Z.to_nat (program_counter ec)) = Some opcode /\
  ((map_at kOpcodeHandlers opcode = None /\ ec' = ec) \/
   (opcode = kJump /\
    exists counter rest,
      stack ec = counter :: rest /\
      ec' = set_program_counter (set_stack ec rest) (intx.to_size_t counter) /\
      Z.of_nat (length (bytecode ec)) <= intx.to_size_t counter)).
Proof.
  split.
  - intros Hstep.
    destruct (Interpret_step_aborted_inv ec ec' _ Hstep)
      as (op & Hf & [(Hh & Heq & ->) | (handler & Hh & [[Hrun Heq] | (who & e & _ & Heq)])]);
      try discriminate; injection Heq as <-.
    + split; [exact Hf|]. left. split; [exact Hh | reflexivity].
    + split; [exact Hf|]. right.
      exact (handler_out_of_range opcode handler ec ec' Hh Hrun).
  - intros [Hf [[Hh ->] | (-> & counter & rest & Hst & -> & Hout)]].
    + exact (Interpret_step_unrecognized ec opcode Hf Hh).
    + unfold Interpret_step.
      rewrite (fetch_inside ec kJump Hf), Hf. cbn [map_at kOpcodeHandlers Byte.eqb].
      change (Byte.eqb kJump kJump) with true. cbv iota.
      rewrite (Jump_beyond_bytecode ec counter rest Hst Hout). reflexivity.
Qed.

(** PUSH1 9, JUMP in a three-byte bytecode: the second step is reported as
    an unrecognized opcode 0x56. *)
Lemma unrecognized_abort_iff_witness :
  Interpret_step
    (mkExecutionContext 2 (hex [0x60; 0x09; 0x56]) [9] fresh_memory)
  = Aborted (UnrecognizedOpcode kJump)
      (mkExecutionContext 9 (hex [0x60; 0x09; 0x56]) [] fresh_memory).
Proof.
  apply (unrecognized_abort_iff
           (mkExecutionContext 2 (hex [0x60; 0x09; 0x56]) [9] fresh_memory)).
  split; [reflexivity|]. right. split; [reflexivity|].
  exists 9, []. repeat split. vm_compute. discriminate.
Defined.

End Unrecognized.

(** ** Stack depth and memory, step by step *)

Section StepEffects.

(** A step that goes on changes the stack depth by the effect of the
    fetched opcode: plus one for PUSHn and DUPk, none for SWAP1 and MLOAD,
    minus one for SHL and JUMP, minus two for MSTORE. *)
Theorem step_stack_effect (ec ec' : ExecutionContext) (opcode : opcode_t) :
  nth_error (bytecode ec) (Z.to_nat (program_counter ec)) = Some opcode ->
  Interpret_step ec = Running ec' ->
  stack_size ec' = stack_size ec + stack_effect opcode.
Proof.
  intros Hf Hstep.
  destruct (Interpret_step_running_handler ec ec' Hstep)
    as (op & handler & ec1 & info & Hf' & Hh & Hrun & _ & ->).
  rewrite Hf in Hf'. injection Hf' as <-.
  destruct (handler_return_effect opcode handler ec ec1 Hh Hrun) as (Heff & _).
  exact Heff.
Qed.

(** SHL leaves one word of two. *)
Lemma step_stack_effect_witness :
  stack_size (set_program_counter (set_stack (loaded [kShl]) [6]) 1)
  = stack_size (set_stack (loaded [kShl]) [1; 3]) + stack_effect kShl.
Proof.
  apply (step_stack_effect (set_stack (loaded [kShl]) [1; 3])).
  - reflexivity.
  - reflexivity.
Defined.

(** The memory is written by a successful MSTORE and by nothing else: a
    step on any other opcode that goes on, and every step that aborts,
    leaves it as it was. *)
Theorem memory_written_only_by_MSTORE
    (ec ec' : ExecutionContext) (opcode : opcode_t) :
  nth_error (bytecode ec) (Z.to_nat (program_counter ec)) = Some opcode ->
  (opcode <> kMStore /\ Interpret_step ec = Running ec') \/
  (exists f, Interpret_step ec = Aborted f ec') ->
  memory ec' = memory ec.
Proof.
  intros Hf [[Hne Hstep] | [f Hstep]].
  - destruct (Interpret_step_running_handler ec ec' Hstep)
      as (op & handler & ec1 & info & Hf' & Hh & Hrun & _ & ->).
    rewrite Hf in Hf'. injection Hf' as <-.
    destruct (handler_return_effect opcode handler ec ec1 Hh Hrun) as (_ & _ & Hm).
    exact (Hm Hne).
  - apply (Interpret_step_aborted_frame ec ec' f Hstep).
Qed.

Lemma memory_written_only_by_MSTORE_witness :
  memory (set_stack (loaded [kMLoad]) []) = memory (set_stack (loaded [kMLoad]) []).
Proof.
  apply (memory_written_only_by_MSTORE (set_stack (loaded [kMLoad]) [])
           (set_stack (loaded [kMLoad]) []) kMLoad).
  - reflexivity.
  - right. exists (Revert "MLOAD" kStackUnderflow). reflexivity.
Defined.

End StepEffects.

(** ** Invariants of a run *)

Section RunInvariant.

Variable P : ExecutionContext -> Prop.
Hypothesis P_step :
  forall ec ec', P ec -> Interpret_step ec = Running ec' -> P ec'.

(** A property every continuing step keeps holds of the context a run is
    left with, and of the context the aborting step started from. *)
Lemma Interpret_reaches (fuel : nat) :
  forall ec, P ec ->
    match Interpret fuel ec with
    | Running ec' | Halted ec' => P ec'
    | Aborted f ec' => exists ec0, P ec0 /\ Interpret_step ec0 = Aborted f ec'
    | Crashed => True
    end.
Proof.
  induction fuel as [| n IH]; intros ec HP; [exact HP|].
  cbn [Interpret]. destruct (Interpret_step ec) as [ec1 | ec1 | f ec1 |] eqn:Hstep.
  - apply IH. exact (P_step ec ec1 HP Hstep).
  - apply Interpret_step_halted_same in Hstep. subst ec1. exact HP.
  - exists ec. split; [exact HP | exact Hstep].
  - exact I.
Qed.

End RunInvariant.

Section RunFacts.

Lemma stack_effect_values (opcode : opcode_t) :
  stack_effect opcode = 1 \/ stack_effect opcode <= 0.
Proof.
  unfold stack_effect.
  destruct (existsb _ _); [left; reflexivity|]. right.
  destruct (existsb _ _); [lia|]. destruct (Byte.eqb _ _); lia.
Qed.

Lemma bytecode_unchanged (fuel : nat) (ec ec' : ExecutionContext) :
  Interpret fuel ec = Running ec' \/ Interpret fuel ec = Halted ec' \/
  (exists f, Interpret fuel ec = Aborted f ec') ->
  bytecode ec' = bytecode ec.
Proof.
  intros Hrun.
  pose proof (Interpret_reaches (fun e => bytecode e = bytecode ec)) as Hreach.
  specialize (Hreach ltac:(
    intros e e' He Hstep;
    destruct (Interpret_step_running_handler e e' Hstep)
      as (op & handler & e1 & info & _ & Hh & Hr & _ & ->);
    destruct (handler_return_frame op handler e e1 Hh Hr) as (Hb & _);
    cbn [bytecode set_program_counter]; congruence) fuel ec eq_refl).
  destruct Hrun as [H | [H | [f H]]]; rewrite H in Hreach.
  - exact Hreach.
  - exact Hreach.
  - destruct Hreach as (ec0 & <- & Hstep).
    apply (Interpret_step_aborted_frame ec0 ec' f Hstep).
Qed.

(** The bytecode a run ends with, or is interrupted with, is the bytecode
    it started with: no handler and no step writes to it. *)
Theorem bytecode_never_changes (fuel : nat) (ec ec' : ExecutionContext) :
  Interpret fuel ec = Running ec' \/ Interpret fuel ec = Halted ec' \/
  (exists f, Interpret fuel ec = Aborted f ec') ->
  bytecode ec' = bytecode ec.
Proof. exact (bytecode_unchanged fuel ec ec'). Qed.

Lemma bytecode_never_changes_witness :
  bytecode (set_program_counter (loaded (hex [0x60; 0x04; 0x56; 0x00; 0x5b])) 5)
  = bytecode (loaded (hex [0x60; 0x04; 0x56; 0x00; 0x5b])).
Proof.
  apply (bytecode_never_changes 2).
  left. reflexivity.
Defined.

Lemma step_keeps_stack_bound (ec ec' : ExecutionContext) :
  stack_size ec <= kMaxStackSize -> Interpret_step ec = Running ec' ->
  stack_size ec' <= kMaxStackSize.
Proof.
  intros Hsz Hstep.
  destruct (Interpret_step_running_handler ec ec' Hstep)
    as (op & handler & ec1 & info & Hf & Hh & Hr & _ & ->).
  destruct (handler_return_effect op handler ec ec1 Hh Hr) as (Heff & Hlt & _).
  unfold stack_size in *. cbn [stack set_program_counter].
  destruct (stack_effect_values op) as [H1 | H0]; [specialize (Hlt H1)|]; lia.
Qed.

(** The bound the code keeps: from a stack of at most [kMaxStackSize] =
    8192 words, a run that goes on or halts never holds more than 8192
    words, and a run that aborts holds at most 8193. *)
Theorem stack_within_kMaxStackSize (fuel : nat) (ec ec' : ExecutionContext) :
  stack_size ec <= kMaxStackSize ->
  (Interpret fuel ec = Running ec' \/ Interpret fuel ec = Halted ec' ->
   stack_size ec' <= kMaxStackSize) /\
  (forall f, Interpret fuel ec = Aborted f ec' ->
             stack_size ec' <= kMaxStackSize + 1).
Proof.
  intros Hsz.
  pose proof (Interpret_reaches (fun e => stack_size e <= kMaxStackSize)
                step_keeps_stack_bound fuel ec Hsz) as Hreach.
  split.
  - intros [H | H]; rewrite H in Hreach; exact Hreach.
  - intros f H. rewrite H in Hreach. destruct Hreach as (ec0 & Hsz0 & Hstep).
    pose proof (Interpret_step_aborted_frame ec0 ec' f Hstep) as (_ & _ & Hle).
    lia.
Qed.

Lemma stack_within_kMaxStackSize_witness :
  stack_size (mkExecutionContext 3 (hex [0x5f; 0x5f; 0x5f]) [0; 0; 0] fresh_memory)
  <= kMaxStackSize.
Proof.
  apply (stack_within_kMaxStackSize 4 (loaded (hex [0x5f; 0x5f; 0x5f]))).
  - vm_compute. discriminate.
  - right. reflexivity.
Defined.

(** The context invariant along a run: whatever a run from a context that
    satisfies the invariant goes on or halts with has a [std::size_t]
    program counter, words below 2^256 on the stack and a memory of
    [kMemorySize] bytes. *)
Theorem context_ok_along_run (fuel : nat) (ec ec' : ExecutionContext) :
  context_ok ec ->
  Interpret fuel ec = Running ec' \/ Interpret fuel ec = Halted ec' ->
  context_ok ec'.
Proof.
  intros Hok Hrun.
  pose proof (Interpret_reaches context_ok Interpret_step_keeps_ok fuel ec Hok)
    as Hreach.
  destruct Hrun as [H | H]; rewrite H in Hreach; exact Hreach.
Qed.

Lemma context_ok_along_run_witness :
  context_ok (mkExecutionContext 3 (hex [0x5f; 0x5f; 0x5f]) [0; 0; 0] fresh_memory).
Proof.
  apply (context_ok_along_run 4 (loaded (hex [0x5f; 0x5f; 0x5f]))).
  - apply loaded_ok. cbn. lia.
  - right. reflexivity.
Defined.

End RunFacts.

(** ** Termination without JUMP *)

Section Termination.





(** With JUMP a run need not stop: in PUSH1 3, JUMP, JUMPDEST, PUSH1 3,
    JUMP the second pair jumps back to its own start, and the loop is at
    offset 4 again every second step, with the stack as it was. *)
Example jump_loop :
  Interpret 2 (mkExecutionContext 4 (hex [0x60; 0x03; 0x56; 0x5b; 0x60; 0x03; 0x56])
                 [] fresh_memory)
  = Running (mkExecutionContext 4 (hex [0x60; 0x03; 0x56; 0x5b; 0x60; 0x03; 0x56])
               [] fresh_memory).
Proof. reflexivity. Qed.

End Termination.

(** ** Memory accesses *)

Section MemoryAccess.

(** A copy into a container changes nothing outside the destination. *)
Lemma copy_to_outside {A : Type} (c src c' : list A) (at_ : Z) (i : nat) :
  0 <= at_ ->
  copy_to c at_ src = Some c' ->
  Z.of_nat i < at_ \/ at_ + Z.of_nat (length src) <= Z.of_nat i ->
  nth_error c' i = nth_error c i.
Proof.
  intros Hat Hcopy Hout. unfold copy_to in Hcopy.
  destruct (Z.leb_spec (at_ + Z.of_nat (length src)) (Z.of_nat (length c)))
    as [Hfit|]; [|discriminate].
  injection Hcopy as <-.
  assert (Hpre : length (firstn (Z.to_nat at_) c) = Z.to_nat at_)
    by (rewrite length_firstn; lia).
  destruct Hout as [Hlow | Hhigh].
  - rewrite nth_error_app1 by lia. rewrite nth_error_firstn.
    destruct (Nat.ltb_spec i (Z.to_nat at_)); [reflexivity | lia].
  - rewrite nth_error_app2 by lia. rewrite nth_error_app2 by lia.
    rewrite nth_error_skipn. f_equal. lia.
Qed.

Lemma nth_error_span {A : Type} (c l : list A) (from count : Z) (i : nat) :
  0 <= from -> span_of c from count = Some l ->
  nth_error l i
  = if (i <? Z.to_nat count)%nat then nth_error c (Z.to_nat from + i) else None.
Proof.
  intros Hfrom Hspan. unfold span_of in Hspan.
  destruct (_ <=? _); [|discriminate]. injection Hspan as <-.
  rewrite nth_error_firstn, nth_error_skipn. reflexivity.
Qed.

(** A span that does not meet the destination of a copy reads the same
    before and after it. *)
Lemma span_of_after_copy {A : Type} (c src c' l : list A) (at_ from count : Z) :
  0 <= at_ -> 0 <= from -> 0 <= count ->
  copy_to c at_ src = Some c' ->
  from + count <= at_ \/ at_ + Z.of_nat (length src) <= from ->
  span_of c from count = Some l ->
  span_of c' from count = Some l.
Proof.
  intros Hat Hfrom Hcount Hcopy Hdisj Hspan.
  pose proof (copy_to_length c src c' at_ Hat Hcopy) as Hlen.
  assert (Hin : from + count <= Z.of_nat (length c)).
  { unfold span_of in Hspan.
    destruct (Z.leb_spec (from + count) (Z.of_nat (length c))); [lia | discriminate]. }
  destruct (span_of_some c' from count Hfrom Hcount) as (l' & Hl' & _ & _); [lia|].
  rewrite Hl'. f_equal. apply nth_error_ext. intros i.
  rewrite (nth_error_span c' l' from count i Hfrom Hl').
  rewrite (nth_error_span c l from count i Hfrom Hspan).
  destruct (Nat.ltb_spec i (Z.to_nat count)); [|reflexivity].
  apply (copy_to_outside c src c' at_ _ Hat Hcopy). lia.
Qed.

(** MSTORE changes the 32 bytes from its offset on and no other byte; the
    memory keeps its length. *)
Theorem StoreToMemory_touches_32_bytes
    (ec ec1 : ExecutionContext) (offset value : word_t) (rest : list word_t)
    (i : nat) :
  stack ec = offset :: value :: rest ->
  StoreToMemory ec = Return ec1 ->
  Z.of_nat i < intx.to_size_t offset \/ intx.to_size_t offset + 32 <= Z.of_nat i ->
  length (memory ec1) = length (memory ec) /\
  nth_error (memory ec1) i = nth_error (memory ec) i.
Proof.
  intros Hst Hrun Hout.
  destruct (StoreToMemory_return ec ec1 Hrun) as (o & v & r & m & Hst' & Hcopy & ->).
  rewrite Hst in Hst'. injection Hst' as <- <- <-.
  pose proof (to_size_t_range offset) as Hoff.
  cbn [memory set_memory]. split.
  - exact (copy_to_length _ _ _ _ (proj1 Hoff) Hcopy).
  - apply (copy_to_outside _ _ _ _ i (proj1 Hoff) Hcopy).
    rewrite length_be_bytes. lia.
Qed.

(** Storing at offset 64 leaves byte 63 of a fresh memory zero. *)
Lemma StoreToMemory_touches_32_bytes_witness :
  exists ec1,
    StoreToMemory (set_stack (loaded [kMStore]) [64; 2 ^ 256 - 1]) = Return ec1 /\
    nth_error (memory ec1) 63 = Some Byte.x00.
Proof.
  destruct (StoreToMemory_stores (set_stack (loaded [kMStore]) [64; 2 ^ 256 - 1])
              64 (2 ^ 256 - 1) []) as (m & Hstore & _).
  { reflexivity. }
  { vm_compute. discriminate. }
  eexists. split; [exact Hstore|].
  destruct (StoreToMemory_touches_32_bytes
              (set_stack (loaded [kMStore]) [64; 2 ^ 256 - 1]) _
              64 (2 ^ 256 - 1) [] 63 eq_refl Hstore) as [_ Hsame].
  { left. vm_compute. reflexivity. }
  rewrite Hsame. vm_compute. reflexivity.
Defined.

Lemma span_of_repeat {A : Type} (x : A) (m : nat) (from count : Z) :
  0 <= from -> 0 <= count -> from + count <= Z.of_nat m ->
  span_of (repeat x m) from count = Some (repeat x (Z.to_nat count)).
Proof.
  intros Hfrom Hcount Hfit.
  destruct (span_of_some (repeat x m) from count Hfrom Hcount) as (l & Hl & _ & Hlen);
    [rewrite repeat_length; lia|].
  rewrite Hl. f_equal. rewrite <- Hlen. apply Forall_eq_repeat.
  apply Forall_forall. intros y Hy.
  destruct (In_nth_error _ _ Hy) as [i Hi].
  rewrite (nth_error_span _ _ _ _ i Hfrom Hl) in Hi.
  destruct (_ <? _)%nat; [|discriminate].
  symmetry. eapply repeat_spec, nth_error_In, Hi.
Qed.

(** MLOAD from a memory that was never written pushes the zero word,
    whatever the offset inside it. *)
Theorem LoadFromMemory_fresh_memory
    (ec : ExecutionContext) (offset : word_t) (rest : list word_t) :
  stack ec = offset :: rest ->
  memory ec = fresh_memory ->
  intx.to_size_t offset + 32 <= kMemorySize ->
  LoadFromMemory ec = Return (set_stack ec (0 :: rest)).
Proof.
  intros Hst Hmem Hfit. pose proof (to_size_t_range offset) as Hoff.
  unfold LoadFromMemory, stack_size. rewrite Hst. cbn [length].
  destruct (Z.ltb_spec (Z.of_nat (S (length rest))) 1); [lia|].
  rewrite Hmem. unfold fresh_memory, kWordSize.
  rewrite span_of_repeat by (unfold kMemorySize in *; lia).
  reflexivity.
Qed.

Lemma LoadFromMemory_fresh_memory_witness :
  LoadFromMemory (set_stack (loaded [kMLoad]) [99968])
  = Return (set_stack (set_stack (loaded [kMLoad]) [99968]) [0]).
Proof.
  apply (LoadFromMemory_fresh_memory (set_stack (loaded [kMLoad]) [99968]) 99968 []).
  - reflexivity.
  - reflexivity.
  - vm_compute. discriminate.
Defined.

(** Two stores in a row.  A load at the offset of the second store reads
    the second value, whether or not the stores overlap; when the two
    32-byte ranges do not meet, a load at the offset of the first store
    still reads the first value. *)
Theorem two_stores_then_load
    (ec : ExecutionContext) (a va b vb : word_t) (rest : list word_t) :
  stack ec = a :: va :: b :: vb :: rest ->
  is_word va -> is_word vb ->
  Z.of_nat (length (memory ec)) = kMemorySize ->
  0 <= a -> a + 32 <= kMemorySize ->
  0 <= b -> b + 32 <= kMemorySize ->
  exists m1 m2,
    StoreToMemory ec = Return (set_memory (set_stack ec (b :: vb :: rest)) m1) /\
    StoreToMemory (set_memory (set_stack ec (b :: vb :: rest)) m1)
    = Return (set_memory (set_stack ec rest) m2) /\
    LoadFromMemory (set_memory (set_stack ec (b :: rest)) m2)
    = Return (set_memory (set_stack ec (vb :: rest)) m2) /\
    (a + 32 <= b \/ b + 32 <= a ->
     LoadFromMemory (set_memory (set_stack ec (a :: rest)) m2)
     = Return (set_memory (set_stack ec (va :: rest)) m2)).
Proof.
  intros Hst Hva Hvb Hmem Ha Ha' Hb Hb'.
  assert (Hta : intx.to_size_t a = a)
    by (unfold intx.to_size_t; apply Z.mod_small; unfold kMemorySize in *; lia).
  assert (Htb : intx.to_size_t b = b)
    by (unfold intx.to_size_t; apply Z.mod_small; unfold kMemorySize in *; lia).
  destruct (StoreToMemory_stores ec a va (b :: vb :: rest) Hst)
    as (m1 & Hs1 & _ & Hlen1 & Hspan1); [lia|].
  destruct (StoreToMemory_stores
              (set_memory (set_stack ec (b :: vb :: rest)) m1) b vb rest eq_refl)
    as (m2 & Hs2 & _ & Hlen2 & Hspan2).
  { cbn [memory set_memory]. lia. }
  cbn [memory set_memory stack set_stack] in Hs2, Hspan2.
  exists m1, m2. split; [exact Hs1|]. split; [exact Hs2|]. split.
  - apply (LoadFromMemory_loads (set_memory (set_stack ec (b :: rest)) m2) b vb rest);
      [reflexivity | exact Hvb | exact Hspan2].
  - intros Hdisj.
    apply (LoadFromMemory_loads (set_memory (set_stack ec (a :: rest)) m2) a va rest);
      [reflexivity | exact Hva|].
    cbn [memory set_memory]. rewrite Hta in *. rewrite Htb in *.
    destruct (StoreToMemory_return _ _ Hs2) as (o & v & r & m & Hst2 & Hcopy & Heq).
    cbn [stack set_stack set_memory memory] in Hst2, Hcopy, Heq.
    injection Hst2 as <- <- <-. injection Heq as <-.
    rewrite Htb in Hcopy.
    apply (span_of_after_copy m1 (be_bytes 32 vb) m2 _ b a 32);
      rewrite ?length_be_bytes; try lia; assumption.
Qed.

Lemma two_stores_then_load_witness :
  exists m1 m2,
    StoreToMemory (set_stack (loaded [kMStore]) [0; 7; 32; 9])
    = Return (set_memory (set_stack (loaded [kMStore]) [32; 9]) m1) /\
    StoreToMemory (set_memory (set_stack (loaded [kMStore]) [32; 9]) m1)
    = Return (set_memory (set_stack (loaded [kMStore]) []) m2) /\
    LoadFromMemory (set_memory (set_stack (loaded [kMStore]) [32]) m2)
    = Return (set_memory (set_stack (loaded [kMStore]) [9]) m2) /\
    LoadFromMemory (set_memory (set_stack (loaded [kMStore]) [0]) m2)
    = Return (set_memory (set_stack (loaded [kMStore]) [7]) m2).
Proof.
  destruct (two_stores_then_load (set_stack (loaded [kMStore]) [0; 7; 32; 9])
              0 7 32 9 []) as (m1 & m2 & H1 & H2 & H3 & H4).
  - reflexivity.
  - unfold is_word. lia.
  - unfold is_word. lia.
  - vm_compute. reflexivity.
  - lia.
  - unfold kMemorySize. lia.
  - lia.
  - unfold kMemorySize. lia.
  - exists m1, m2. repeat split; try assumption. apply H4. left. lia.
Defined.

End MemoryAccess.

(** ** Loading a bytecode file *)

Section Loading.

(** The two characters [std::format] writes for a byte are read back by
    [std::stoi] as that byte. *)
Lemma stoi_hex_of_byte (b : byte) :
  stoi_hex [format_x_digit (byte.unsigned b / 16);
            format_x_digit (byte.unsigned b mod 16)]
  = StoiValue (byte.unsigned b).
Proof. destruct b; vm_compute; reflexivity. Qed.

(** A well-formed hexadecimal prefix is collected byte by byte; what
    happens next is decided by the rest of the text. *)
Lemma collect_bytes_hex_prefix (bs : list byte) (tail : list ascii) :
  collect_bytes (chunk2 (hex_text bs ++ tail))
  = match collect_bytes (chunk2 tail) with
    | inl t => inl (bs ++ t)
    | inr e => inr e
    end.
Proof.
  induction bs as [| b r IH].
  - cbn [hex_text flat_map app]. destruct (collect_bytes (chunk2 tail)); reflexivity.
  - change (hex_text (b :: r) ++ tail)
      with (format_x_digit (byte.unsigned b / 16)
            :: format_x_digit (byte.unsigned b mod 16) :: (hex_text r ++ tail)).
    cbn [chunk2 collect_bytes]. rewrite stoi_hex_of_byte, IH.
    destruct (collect_bytes (chunk2 tail)); [|reflexivity].
    rewrite byte.of_Z_unsigned. reflexivity.
Qed.

Lemma hex_digit_char_code (c : ascii) (v : Z) :
  hex_digit c = Some v ->
  0 <= v < 16 /\ is_space c = false /\
  (char_code c =? 45) = false /\ (char_code c =? 43) = false.
Proof.
  unfold hex_digit, digit_value, is_space, kHexBase.
  destruct (Z.leb_spec 48 (char_code c)), (Z.leb_spec (char_code c) 57);
    cbn [andb]; try (destruct (Z.ltb_spec (char_code c - 48) 16); [|discriminate]);
    try (intros [= <-]; repeat split; try lia;
         repeat match goal with
                | |- context [?a =? ?b] => destruct (Z.eqb_spec a b); try lia
                | |- context [?a <=? ?b] => destruct (Z.leb_spec a b); try lia
                end; reflexivity).
  all: destruct (Z.leb_spec 97 (char_code c)), (Z.leb_spec (char_code c) 122);
    cbn [andb];
    try (destruct (Z.ltb_spec (char_code c - 97 + 10) 16); [|discriminate]);
    try (intros [= <-]; repeat split; try lia;
         repeat match goal with
                | |- context [?a =? ?b] => destruct (Z.eqb_spec a b); try lia
                | |- context [?a <=? ?b] => destruct (Z.leb_spec a b); try lia
                end; reflexivity).
  all: destruct (Z.leb_spec 65 (char_code c)), (Z.leb_spec (char_code c) 90);
    cbn [andb]; try discriminate;
    try (destruct (Z.ltb_spec (char_code c - 65 + 10) 16); [|discriminate]);
    try (intros [= <-]; repeat split; try lia;
         repeat match goal with
                | |- context [?a =? ?b] => destruct (Z.eqb_spec a b); try lia
                | |- context [?a <=? ?b] => destruct (Z.leb_spec a b); try lia
                end; reflexivity).
Qed.

(** [std::stoi] on a chunk that starts with a hexadecimal digit and goes on
    with at most one character that is not one. *)
Lemma stoi_hex_one_digit (d : ascii) (v : Z) (after : list ascii) :
  hex_digit d = Some v ->
  after = [] \/ (exists c, after = [c] /\ hex_digit c = None) ->
  stoi_hex (d :: after) = StoiValue v.
Proof.
  intros Hd Hafter.
  destruct (hex_digit_char_code d v Hd) as (Hv & Hsp & Hminus & Hplus).
  unfold stoi_hex. cbn [skip_spaces]. rewrite Hsp, Hminus, Hplus.
  destruct Hafter as [-> | (c & -> & Hc)].
  - cbn [starts_with_hex_digit digits_value]. rewrite Hd. unfold kHexBase.
    replace (0 * 16 + v) with v by lia.
    destruct (Z.leb_spec (- 2 ^ 31) v), (Z.leb_spec v (2 ^ 31 - 1));
      cbn [andb]; try lia. reflexivity.
  - cbn [starts_with_hex_digit]. rewrite andb_false_r.
    cbn [starts_with_hex_digit digits_value]. rewrite Hd, Hc. unfold kHexBase.
    replace (0 * 16 + v) with v by lia.
    destruct (Z.leb_spec (- 2 ^ 31) v), (Z.leb_spec v (2 ^ 31 - 1));
      cbn [andb]; try lia. reflexivity.
Qed.

(** Round trip.  A file whose characters, white space apart, are the
    two-digit hexadecimal text of the bytes [bs] loads as [bs]; program
    counter, stack and memory are not touched. *)
Theorem LoadBytecode_hex_text
    (content : string) (bs : list byte) (ec : ExecutionContext) :
  filter (fun c => negb (is_space c)) (list_ascii_of_string content) = hex_text bs ->
  LoadBytecode (Some content) ec = Loaded (set_bytecode ec bs).
Proof.
  intros Htext. unfold LoadBytecode. rewrite Htext.
  rewrite <- (app_nil_r (hex_text bs)), collect_bytes_hex_prefix.
  cbn [chunk2 collect_bytes]. rewrite app_nil_r. reflexivity.
Qed.

(** The text of the end-to-end scenario, broken over two lines. *)
Lemma LoadBytecode_hex_text_witness :
  LoadBytecode (Some "600a6000
52600051
"%string) (loaded [])
  = Loaded (loaded (hex [0x60; 0x0a; 0x60; 0x00; 0x52; 0x60; 0x00; 0x51])).
Proof.
  apply (LoadBytecode_hex_text _
           (hex [0x60; 0x0a; 0x60; 0x00; 0x52; 0x60; 0x00; 0x51]) (loaded [])).
  vm_compute. reflexivity.
Defined.

(** Malformed text that is accepted.  After a well-formed prefix, a single
    hexadecimal digit at the end of the file (an odd number of digits) is
    loaded as a byte of its own, and so is a digit followed by a character
    that is not a hexadecimal digit: that character is dropped. *)
Theorem LoadBytecode_lenient
    (content : string) (bs : list byte) (d : ascii) (v : Z) (after : list ascii)
    (ec : ExecutionContext) :
  hex_digit d = Some v ->
  after = [] \/ (exists c, after = [c] /\ hex_digit c = None) ->
  filter (fun c => negb (is_space c)) (list_ascii_of_string content)
  = hex_text bs ++ d :: after ->
  LoadBytecode (Some content) ec = Loaded (set_bytecode ec (bs ++ [byte.of_Z v])).
Proof.
  intros Hd Hafter Htext. unfold LoadBytecode. rewrite Htext.
  rewrite collect_bytes_hex_prefix.
  assert (Hchunk : chunk2 (d :: after) = [d :: after])
    by (destruct Hafter as [-> | (c & -> & _)]; reflexivity).
  rewrite Hchunk. cbn [collect_bytes].
  rewrite (stoi_hex_one_digit d v after Hd Hafter). reflexivity.
Qed.

(** Three digits load as two bytes, and [6g] loads as the byte 6. *)
Lemma LoadBytecode_lenient_witness :
  LoadBytecode (Some "60a"%string) (loaded []) = Loaded (loaded (hex [0x60; 0x0a])) /\
  LoadBytecode (Some "6g"%string) (loaded []) = Loaded (loaded (hex [0x06])).
Proof.
  split.
  - apply (LoadBytecode_lenient "60a" (hex [0x60]) "a"%char 10 [] (loaded [])).
    + reflexivity.
    + left. reflexivity.
    + vm_compute. reflexivity.
  - apply (LoadBytecode_lenient "6g" [] "6"%char 6 ["g"%char] (loaded [])).
    + reflexivity.
    + right. exists "g"%char. split; reflexivity.
    + vm_compute. reflexivity.
Defined.

(** Text that is rejected.  After a well-formed prefix, a chunk that starts
    with a character that is neither white space, a sign nor a hexadecimal
    digit makes [std::stoi] throw [std::invalid_argument]; the bytecode was
    cleared before and stays empty, the rest of the context is untouched. *)
Theorem LoadBytecode_rejects
    (content : string) (bs : list byte) (c : ascii) (rest : list ascii)
    (ec : ExecutionContext) :
  hex_digit c = None ->
  char_code c <> 45 -> char_code c <> 43 ->
  filter (fun c => negb (is_space c)) (list_ascii_of_string content)
  = hex_text bs ++ c :: rest ->
  LoadBytecode (Some content) ec = LoadThrowInvalidArgument (set_bytecode ec []).
Proof.
  intros Hc Hminus Hplus Htext.
  assert (Hsp : is_space c = false).
  { assert (Hin : In c (filter (fun c => negb (is_space c))
                          (list_ascii_of_string content)))
      by (rewrite Htext; apply in_elt).
    apply filter_In in Hin. destruct Hin as [_ Hin].
    destruct (is_space c); [discriminate | reflexivity]. }
  assert (Hstoi : forall tl, stoi_hex (c :: tl) = StoiInvalidArgument).
  { intros tl. unfold stoi_hex. cbn [skip_spaces]. rewrite Hsp.
    destruct (Z.eqb_spec (char_code c) 45); [contradiction|].
    destruct (Z.eqb_spec (char_code c) 43); [contradiction|].
    assert (Hzero : (char_code c =? 48) = false).
    { destruct (Z.eqb_spec (char_code c) 48) as [E|]; [|reflexivity].
      unfold hex_digit, digit_value in Hc. rewrite E in Hc. discriminate. }
    destruct tl as [| x tl']; [|rewrite Hzero; cbn [andb]];
      cbn [starts_with_hex_digit]; rewrite Hc; reflexivity. }
  unfold LoadBytecode. rewrite Htext, collect_bytes_hex_prefix.
  destruct rest as [| x rest']; cbn [chunk2 collect_bytes]; rewrite Hstoi; reflexivity.
Qed.

Lemma LoadBytecode_rejects_witness :
  LoadBytecode (Some "60zz"%string) (loaded (hex [0x5f]))
  = LoadThrowInvalidArgument (loaded []).
Proof.
  apply (LoadBytecode_rejects "60zz" (hex [0x60]) "z"%char ["z"%char]
           (loaded (hex [0x5f]))).
  - reflexivity.
  - vm_compute. discriminate.
  - vm_compute. discriminate.
  - vm_compute. reflexivity.
Defined.

End Loading.

(** ** Loading again *)

Section Reload.

Lemma Interpret_halted_at_end (fuel : nat) :
  forall ec ec',
    Interpret fuel ec = Halted ec' ->
    Z.of_nat (length (bytecode ec')) <= program_counter ec'.
Proof.
  induction fuel as [| n IH]; intros ec ec' Hrun; [discriminate|].
  cbn [Interpret] in Hrun.
  destruct (Interpret_step ec) as [ec1 | ec1 | f ec1 |] eqn:Hstep;
    try discriminate.
  - exact (IH ec1 ec' Hrun).
  - injection Hrun as <-.
    pose proof (Interpret_step_halted_same ec ec1 Hstep) as ->.
    destruct (Z.lt_ge_cases (program_counter ec) (Z.of_nat (length (bytecode ec))))
      as [Hlt | Hge]; [|exact Hge].
    exfalso. exact (Interpret_step_not_halted ec ec Hlt Hstep).
Qed.

Lemma LoadBytecode_loaded_inv
    (file : option string) (ec ec' : ExecutionContext) :
  LoadBytecode file ec = Loaded ec' -> exists bytes, ec' = set_bytecode ec bytes.
Proof.
  unfold LoadBytecode. destruct file as [content|]; [|discriminate].
  destruct (collect_bytes _) as [bytes | []]; try discriminate.
  intros [= <-]. exists bytes. reflexivity.
Qed.

(** [LoadBytecode] replaces the bytecode and nothing else.  So after a run
    that halted, loading a bytecode that is not longer than the one just
    run and interpreting again executes nothing: the program counter of
    the first run is already past the end, the second run halts at once,
    and stack and memory are those of the first run. *)
Theorem reload_does_not_reset
    (fuel fuel' : nat) (file : option string) (ec ec1 ec2 : ExecutionContext) :
  Interpret fuel ec = Halted ec1 ->
  LoadBytecode file ec1 = Loaded ec2 ->
  (length (bytecode ec2) <= length (bytecode ec))%nat ->
  Interpret (S fuel') ec2 = Halted ec2 /\
  program_counter ec2 = program_counter ec1 /\
  stack ec2 = stack ec1 /\ memory ec2 = memory ec1.
Proof.
  intros Hrun Hload Hlen.
  pose proof (Interpret_halted_at_end fuel ec ec1 Hrun) as Hend.
  assert (Hbc : bytecode ec1 = bytecode ec)
    by (apply (bytecode_unchanged fuel); right; left; exact Hrun).
  destruct (LoadBytecode_loaded_inv file ec1 ec2 Hload) as [bytes ->].
  cbn [bytecode program_counter stack memory set_bytecode] in *.
  split; [|repeat split].
  cbn [Interpret]. rewrite Interpret_step_halted; [reflexivity|].
  cbn [bytecode program_counter set_bytecode]. rewrite Hbc in Hend. lia.
Qed.

(** Two PUSH0 are run, then the text [60ff] is loaded: the new PUSH1 is
    never executed and the two zero words stay on the stack. *)
Lemma reload_does_not_reset_witness :
  Interpret 1 (mkExecutionContext 2 (hex [0x60; 0xff]) [0; 0] fresh_memory)
  = Halted (mkExecutionContext 2 (hex [0x60; 0xff]) [0; 0] fresh_memory).
Proof.
  apply (reload_does_not_reset 3 0 (Some "60ff"%string)
           (loaded (hex [0x5f; 0x5f]))
           (mkExecutionContext 2 (hex [0x5f; 0x5f]) [0; 0] fresh_memory)).
  - reflexivity.
  - reflexivity.
  - cbn. lia.
Defined.

End Reload.

(** ** The printed stack *)

Section Printing.

Lemma app_same_length_inj {A : Type} (l1 l2 r1 r2 : list A) :
  length l1 = length l2 -> l1 ++ r1 = l2 ++ r2 -> l1 = l2 /\ r1 = r2.
Proof.
  revert l2. induction l1 as [| x l1 IH]; intros [| y l2] Hlen Heq;
    try discriminate.
  - split; [reflexivity | exact Heq].
  - cbn [app] in Heq. injection Heq as -> Heq. cbn [length] in Hlen.
    destruct (IH l2 ltac:(lia) Heq) as [-> ->]. split; reflexivity.
Qed.

Lemma format_02x_sep_injective (b1 b2 : byte) :
  format_02x_sep b1 = format_02x_sep b2 -> b1 = b2.
Proof.
  unfold format_02x_sep. intros [= Hhi Hlo].
  apply byte.unsigned_inj.
  pose proof (stoi_hex_of_byte b1) as H1. rewrite Hhi, Hlo, stoi_hex_of_byte in H1.
  congruence.
Qed.

Lemma flat_map_format_injective (l1 l2 : list byte) :
  flat_map format_02x_sep l1 = flat_map format_02x_sep l2 -> l1 = l2.
Proof.
  revert l2. induction l1 as [| b1 l1 IH]; intros [| b2 l2] Heq;
    try discriminate; [reflexivity|].
  cbn [flat_map] in Heq.
  apply app_same_length_inj in Heq; [|reflexivity].
  destruct Heq as [Hb Hrest].
  rewrite (format_02x_sep_injective b1 b2 Hb), (IH l2 Hrest). reflexivity.
Qed.

Lemma print_word_injective (w1 w2 : word_t) :
  is_word w1 -> is_word w2 -> print_word w1 = print_word w2 -> w1 = w2.
Proof.
  intros H1 H2 Heq. unfold print_word, intx.as_bytes in Heq.
  apply flat_map_format_injective in Heq.
  rewrite !rev_le_split_be_bytes in Heq.
  pose proof (to_uint256_be_bytes w1 H1) as E1.
  rewrite Heq, (to_uint256_be_bytes w2 H2) in E1. congruence.
Qed.

Lemma string_of_list_ascii_injective (l1 l2 : list ascii) :
  string_of_list_ascii l1 = string_of_list_ascii l2 -> l1 = l2.
Proof.
  intros H. apply (f_equal list_ascii_of_string) in H.
  rewrite !list_ascii_of_string_of_list_ascii in H. exact H.
Qed.

Lemma map_injective_on {A B : Type} (P : A -> Prop) (f : A -> B) :
  (forall x y, P x -> P y -> f x = f y -> x = y) ->
  forall l1 l2, Forall P l1 -> Forall P l2 -> map f l1 = map f l2 -> l1 = l2.
Proof.
  intros Hinj. induction l1 as [| x l1 IH]; intros [| y l2] H1 H2 Heq;
    try discriminate; [reflexivity|].
  cbn [map] in Heq. injection Heq as Hhead Htail.
  inversion H1 as [| ? ? Hx H1']. inversion H2 as [| ? ? Hy H2']. subst.
  rewrite (Hinj x y Hx Hy Hhead), (IH l2 H1' H2' Htail). reflexivity.
Qed.

(** The trace is lossless: two stacks of words for which [PrintStack]
    writes the same lines are the same stack.  Each word is printed as its
    32 bytes, most significant first, top of the stack first. *)
Theorem PrintStack_determines_stack (ec1 ec2 : ExecutionContext) :
  Forall is_word (stack ec1) -> Forall is_word (stack ec2) ->
  PrintStack ec1 = PrintStack ec2 ->
  stack ec1 = stack ec2.
Proof.
  unfold PrintStack. intros Hw1 Hw2 Heq.
  apply (f_equal (@tl string)) in Heq. cbn [tl] in Heq.
  apply app_inv_tail in Heq.
  apply (map_injective_on is_word
           (fun top_word => string_of_list_ascii (print_word top_word)));
    try assumption.
  intros x y Hx Hy Hline.
  apply string_of_list_ascii_injective in Hline.
  exact (print_word_injective x y Hx Hy Hline).
Qed.

Lemma PrintStack_determines_stack_witness :
  stack (set_stack (loaded [kPush0]) [258; 1])
  = stack (set_stack (loaded [kShl]) [258; 1]).
Proof.
  apply PrintStack_determines_stack.
  - repeat constructor; unfold is_word; lia.
  - repeat constructor; unfold is_word; lia.
  - reflexivity.
Defined.

(** What the trace of the stack 258, 1 looks like. *)
Example PrintStack_lines :
  PrintStack (set_stack (loaded []) [258; 1])
  = ["printing stack contents ..."%string;
     "00, 00, 00, 00, 00, 00, 00, 00, 00, 00, 00, 00, 00, 00, 00, 00, 00, 00, 00, 00, 00, 00, 00, 00, 00, 00, 00, 00, 00, 00, 01, 02, "%string;
     "00, 00, 00, 00, 00, 00, 00, 00, 00, 00, 00, 00, 00, 00, 00, 00, 00, 00, 00, 00, 00, 00, 00, 00, 00, 00, 00, 00, 00, 00, 00, 01, "%string;
     "finished"%string].
Proof. vm_compute. reflexivity. Qed.

End Printing.

(** ** Offsets wider than [std::size_t] *)

Section Conversions.

(** JUMP, MLOAD and MSTORE convert the popped word with
    [static_cast<std::size_t>]: two words with the same low 64 bits are the
    same target or offset, and the handlers behave identically on them. *)
Theorem offsets_use_low_64_bits
    (ec : ExecutionContext) (c c' value : word_t) (rest : list word_t) :
  c mod 2 ^ 64 = c' mod 2 ^ 64 ->
  Jump (set_stack ec (c :: rest)) = Jump (set_stack ec (c' :: rest)) /\
  LoadFromMemory (set_stack ec (c :: rest))
  = LoadFromMemory (set_stack ec (c' :: rest)) /\
  StoreToMemory (set_stack ec (c :: value :: rest))
  = StoreToMemory (set_stack ec (c' :: value :: rest)).
Proof.
  intros Hlow.
  assert (Hsz : intx.to_size_t c = intx.to_size_t c') by exact Hlow.
  unfold Jump, LoadFromMemory, StoreToMemory, stack_size.
  cbn [stack set_stack length program_counter bytecode memory
       set_program_counter].
  rewrite Hsz.
  repeat split;
    match goal with
    | |- context [?a <? ?b] => destruct (Z.ltb_spec a b); [lia | reflexivity]
    end.
Qed.

(** The word 2^64 + 4 jumps where 4 jumps. *)
Lemma offsets_use_low_64_bits_witness :
  Jump (set_stack (loaded (hex [0x56; 0x00; 0x00; 0x00; 0x5b])) [2 ^ 64 + 4])
  = Jump (set_stack (loaded (hex [0x56; 0x00; 0x00; 0x00; 0x5b])) [4]).
Proof.
  destruct (offsets_use_low_64_bits
              (loaded (hex [0x56; 0x00; 0x00; 0x00; 0x5b])) (2 ^ 64 + 4) 4 0 [])
    as [Hjump _].
  - reflexivity.
  - exact Hjump.
Defined.

End Conversions.
